(** * Project WISE: the speech-to-text transcriber, [audio_transcriber.py]

    A shallow embedding of [transcribe], [_write_line] and [_format_time]
    together with the properties of the subtitle segmentation loop and of
    the two progress-reporting loops.

    Conventions of the embedding.
    - Python [int] is [Z]; [//] and [%] with a positive divisor are
      [Z.div] and [Z.modulo] (both floor).
    - Python [str] is [string]; a Python list of [str] is [list string].
    - The fraction handed to the progress callback is a Python number.  It
      is embedded as the exact rational [Q] it denotes: [a / b] on ints is
      the quotient, [p * .01] is [p * 1/100].  Binary rounding of floats is
      not part of the model.
    - The Google clients, the file system and the [wave] module are the
      environment.  A run of [transcribe] is a function of a record of
      scripted responses [Env]; it yields the trace of effects performed
      and the way the call ended. *)

From Stdlib Require Import ZArith QArith List String Ascii Bool Lia.
From Stdlib Require Import DecimalString.
Import ListNotations.

Local Open Scope string_scope.
Local Open Scope Z_scope.

(** ** Python string formatting *)

Module PyFormat.

(** [str(n)] for an [int]. *)
Definition str (n : Z) : string := NilZero.string_of_int (Z.to_int n).

Fixpoint zeros (k : nat) : string :=
  match k with
  | O => ""
  | S k' => String "0" (zeros k')
  end.

(** [format(n, '0w')]: the decimal digits of [n], padded with zeros on the
    left up to a minimum width [w]; the sign, when there is one, comes first
    and counts in the width. *)
Definition zero_pad (w : nat) (n : Z) : string :=
  if n <? 0
  then let d := str (- n) in String "-" (zeros (w - 1 - String.length d) ++ d)
  else let d := str n in zeros (w - String.length d) ++ d.

(** [' '.join(words)] *)
Fixpoint join (sep : string) (words : list string) : string :=
  match words with
  | [] => ""
  | [w] => w
  | w :: rest => w ++ sep ++ join sep rest
  end.

(** The character of a decimal digit [0..9]. *)
Definition digit (d : Z) : ascii := ascii_of_nat (48 + Z.to_nat d).

End PyFormat.

(** ** Time codes *)

(** [_format_time(millis)] *)
Definition _format_time (millis : Z) : string :=
  let h := millis / (3600 * 10 ^ 3) in
  let m := millis / (60 * 10 ^ 3) mod 60 in
  let s := millis / 10 ^ 3 mod 60 in
  let ms := millis mod 10 ^ 3 in
  PyFormat.zero_pad 2 h ++ ":" ++ PyFormat.zero_pad 2 m ++ ":" ++
  PyFormat.zero_pad 2 s ++ "," ++ PyFormat.zero_pad 3 ms.

(** ** Recognition results, as [transcribe] reads them *)

(** A [datetime.timedelta], of which the code reads two fields. *)
Record timedelta := { seconds : Z; microseconds : Z }.

(** One element of [alternatives[0].words]. *)
Record WordInfo := {
  word : string;
  start_time : timedelta;
  end_time : timedelta
}.

Record Alternative := { words : list WordInfo }.

Record RecognitionResult := { alternatives : list Alternative }.

(** ** Module constants *)

Definition _BUCKET_NAME : string := "wearable-ml-recorded-audio".
Definition _PROGRESS_INTERVAL : Z := 1.
Definition _ACCESS_URI_FORMAT (blob_name : string) : string :=
  "gs://" ++ _BUCKET_NAME ++ "/" ++ blob_name.
Definition _MAX_NUM_WORDS_IN_LINE : Z := 12.
Definition _LINE_INTERVAL : Z := 500.

(** ** Subtitle lines *)

(** The arguments of one call [_write_line(target, line, index, start_time,
    end_time)]: one subtitle block. *)
Record SubtitleLine := {
  sl_line : list string;
  sl_index : Z;
  sl_start_time : Z;
  sl_end_time : Z
}.

Definition newline : string := String (ascii_of_nat 10) EmptyString.

(** [_write_line]: the three strings written to the target, in order. *)
Definition _write_line (sl : SubtitleLine) : list string :=
  [ PyFormat.str (sl_index sl) ++ newline;
    _format_time (sl_start_time sl) ++ " --> " ++
      _format_time (sl_end_time sl) ++ newline;
    PyFormat.join " " (sl_line sl) ++ newline ++ newline ].

(** ** The segmentation loop (lines 95 to 116) *)

(** The local variables of the loop. *)
Record LineState := {
  line : list string;
  line_index : Z;
  line_start_time : Z;
  line_end_time : Z
}.

(** Lines 95 to 97. *)
Definition initial_state : LineState :=
  {| line := []; line_index := 1; line_start_time := 0; line_end_time := 0 |}.

(** Lines 101 to 104. *)
Definition word_start_time (wd : WordInfo) : Z :=
  seconds (start_time wd) * 10 ^ 3 + microseconds (start_time wd) / 10 ^ 3.

Definition word_end_time (wd : WordInfo) : Z :=
  seconds (end_time wd) * 10 ^ 3 + microseconds (end_time wd) / 10 ^ 3.

(** The condition of lines 105 and 106:
    [len(line) == MAX or line and start - line_end >= INTERVAL]. *)
Definition starts_new_line (st : LineState) (start : Z) : bool :=
  (Z.of_nat (List.length (line st)) =? _MAX_NUM_WORDS_IN_LINE)
  || (match line st with [] => false | _ :: _ => true end
      && (start - line_end_time st >=? _LINE_INTERVAL)).

(** The subtitle line the accumulator stands for (the arguments of the
    calls of lines 107 and 115). *)
Definition pending_line (st : LineState) : SubtitleLine :=
  {| sl_line := line st;
     sl_index := line_index st;
     sl_start_time := line_start_time st;
     sl_end_time := line_end_time st |}.

(** Lines 109 to 111. *)
Definition begin_line (st : LineState) (start : Z) : LineState :=
  {| line := [];
     line_index := line_index st + 1;
     line_start_time := start;
     line_end_time := line_end_time st |}.

(** Lines 112 and 113. *)
Definition append_word (st : LineState) (wd : WordInfo) : LineState :=
  {| line := (line st ++ [word wd])%list;
     line_index := line_index st;
     line_start_time := line_start_time st;
     line_end_time := word_end_time wd |}.

(** One iteration of the inner loop: the lines written, and the new state. *)
Definition segment_word (st : LineState) (wd : WordInfo)
  : list SubtitleLine * LineState :=
  if starts_new_line st (word_start_time wd)
  then ([pending_line st], append_word (begin_line st (word_start_time wd)) wd)
  else ([], append_word st wd).

(** The inner loop over the words of one alternative. *)
Fixpoint segment_words (st : LineState) (ws : list WordInfo)
  : list SubtitleLine * LineState :=
  match ws with
  | [] => ([], st)
  | wd :: rest =>
      let '(out, st1) := segment_word st wd in
      let '(outs, st2) := segment_words st1 rest in
      ((out ++ outs)%list, st2)
  end.

(** Lines 114 to 116. *)
Definition last_line (st : LineState) : list SubtitleLine :=
  match line st with
  | [] => []
  | _ :: _ => [pending_line st]
  end.

(** The lines written for the words [ws] when the loop is entered in state
    [st], the last line included. *)
Definition segment_from (st : LineState) (ws : list WordInfo)
  : list SubtitleLine :=
  let '(out, st1) := segment_words st ws in
  (out ++ last_line st1)%list.

(** The lines written for a stream of words. *)
Definition segment (ws : list WordInfo) : list SubtitleLine :=
  segment_from initial_state ws.

(** The lines already written, and the state of the loop, once the words
    [ws] have been read. *)
Definition lines_after (ws : list WordInfo) : list SubtitleLine :=
  fst (segment_words initial_state ws).


(** The words of a stream grouped the way the loop groups them: the same
    loop, with the accumulator keeping the whole [WordInfo] of each word
    instead of its text alone. *)
Fixpoint group_words (cur : list WordInfo) (st : LineState) (ws : list WordInfo)
  : list (list WordInfo) :=
  match ws with
  | [] => match cur with [] => [] | _ :: _ => [cur] end
  | wd :: rest =>
      if starts_new_line st (word_start_time wd)
      then cur :: group_words [wd]
                    (append_word (begin_line st (word_start_time wd)) wd) rest
      else group_words (cur ++ [wd])%list (append_word st wd) rest
  end.

Definition groups (ws : list WordInfo) : list (list WordInfo) :=
  group_words [] initial_state ws.

(** ** The environment of a call *)

Inductive Exn :=
| NameError                         (* the module's clients are not set *)
| FileNotFoundError (path : string) (* [open] of a missing file *)
| TransportError (detail : string)  (* a failed upload request *)
| ZeroDivisionError
| WaveError                         (* [wave.open] of a malformed file *)
| GoogleAPICallError (detail : string) (* a failed remote operation *)
| IndexError                        (* [alternatives[0]] of an empty list *)
| OSError.                          (* the target cannot be opened *)

Inductive Response (A : Type) :=
| Returns (a : A)
| Raises (e : Exn).
Arguments Returns {A} a.
Arguments Raises {A} e.

(** What the code reads of the [ResumableUpload] object. *)
Record Resumable := {
  finished : bool;
  bytes_uploaded : Z;
  total_bytes : Z
}.

(** One call of [operation.done()]: false, with the
    [metadata.progress_percent] read next, or true.  An operation that has
    failed is done: [done()] returns true for it, and its error is raised by
    [operation.result()]. *)
Inductive PollResponse :=
| Pending (progress_percent : Z)
| Completed.

(** The responses of the collaborators during one call, in the order the
    code asks for them.  The two lists are the successive answers to
    [transmit_next_chunk] and to [done()]; a loop still running when its
    list is exhausted leaves the call [Blocked]. *)
Record Env := {
  started : bool;                 (* [start] has been called *)
  source_exists : bool;           (* the file at [source_audio_path] *)
  initiate_response : Response Resumable;
  transmit_responses : list (Response Resumable);
  wave_framerate : Response Z;
  recognize_response : Response unit;
  poll_responses : list PollResponse;
  delete_response : Response unit;
  target_writable : bool;
  result_response : Response (list RecognitionResult)
}.

(** ** Effects *)

Inductive Event :=
| Initiate (blob_name : string)          (* [resumable.initiate] *)
| TransmitNextChunk                      (* [resumable.transmit_next_chunk] *)
| Progress (phase : string) (fraction : Q) (* [progress_callback] *)
| LongRunningRecognize (uri : string) (sample_rate_hertz : Z)
| OperationDone                          (* [operation.done()] *)
| Sleep (secs : Z)
| BlobDelete                             (* [blob.delete()] *)
| OpenTarget (path : string)
| WriteLine (sl : SubtitleLine).         (* a call of [_write_line] *)

(** How a computation ends: with a value, with an exception, or still
    inside a loop when the scripted responses run out. *)
Inductive Outcome (A : Type) :=
| Done (a : A)
| Raised (e : Exn)
| Blocked.
Arguments Done {A} a.
Arguments Raised {A} e.
Arguments Blocked {A}.

(** A computation: the events it performed, then its outcome. *)
Definition M (A : Type) : Type := (list Event * Outcome A)%type.

Definition ret {A} (a : A) : M A := ([], Done a).

Definition bind {A B} (m : M A) (f : A -> M B) : M B :=
  match m with
  | (t, Done a) => let '(t', r) := f a in ((t ++ t')%list, r)
  | (t, Raised e) => (t, Raised e)
  | (t, Blocked) => (t, Blocked)
  end.

Notation "x <- m ;; k" := (bind m (fun x => k))
  (at level 61, m at next level, right associativity).
Notation "m ;; k" := (bind m (fun _ => k))
  (at level 61, right associativity).

Definition emit (ev : Event) : M unit := ([ev], Done tt).
Definition raise {A} (e : Exn) : M A := ([], Raised e).
Definition blocked {A} : M A := ([], Blocked).

(** A local operation that may raise. *)
Definition respond {A} (r : Response A) : M A :=
  match r with
  | Returns a => ret a
  | Raises e => raise e
  end.

(** A request to a collaborator: the event, then its response. *)
Definition call {A} (ev : Event) (r : Response A) : M A :=
  emit ev ;; respond r.

Definition trace {A} (m : M A) : list Event := fst m.
Definition outcome {A} (m : M A) : Outcome A := snd m.

(** ** [transcribe] *)

(** [os.path.basename] (POSIX): what follows the last slash. *)
Fixpoint basename_from (acc path : string) : string :=
  match path with
  | EmptyString => acc
  | String c rest =>
      if Ascii.eqb c "/" then basename_from "" rest
      else basename_from (acc ++ String c "") rest
  end.

Definition basename (path : string) : string := basename_from "" path.

(** [a / b] on two ints. *)
Definition truediv (a b : Z) : M Q :=
  if b =? 0 then raise ZeroDivisionError
  else ret (inject_Z a / inject_Z b)%Q.

(** Lines 72 to 75: the loop over the chunks. *)
Fixpoint upload_loop (resumable : Resumable) (script : list (Response Resumable))
  : M unit :=
  if finished resumable then ret tt
  else match script with
       | [] => blocked
       | resp :: rest =>
           r <- call TransmitNextChunk resp ;;
           f <- truediv (bytes_uploaded r) (total_bytes r) ;;
           emit (Progress "upload" f) ;;
           upload_loop r rest
       end.

(** Lines 62 to 76. *)
Definition upload_phase (env : Env) (source_audio_path : string) : M unit :=
  let blob_name := basename source_audio_path in
  (if started env then ret tt else raise NameError) ;;
  (if source_exists env then ret tt
   else raise (FileNotFoundError source_audio_path)) ;;
  resumable <- call (Initiate blob_name) (initiate_response env) ;;
  emit (Progress "upload" 0%Q) ;;
  upload_loop resumable (transmit_responses env) ;;
  emit (Progress "upload" 1%Q).

(** Lines 88 to 91: the polling loop. *)
Fixpoint poll_loop (script : list PollResponse) : M unit :=
  match script with
  | [] => blocked
  | resp :: rest =>
      emit OperationDone ;;
      match resp with
      | Completed => ret tt
      | Pending progress_percent =>
          emit (Progress "transcribe" (inject_Z progress_percent * (1 # 100))%Q) ;;
          emit (Sleep _PROGRESS_INTERVAL) ;;
          poll_loop rest
      end
  end.

(** Lines 78 to 91. *)
Definition recognize_phase (env : Env) (source_audio_path : string) : M unit :=
  let blob_name := basename source_audio_path in
  frame_rate <- respond (wave_framerate env) ;;
  call (LongRunningRecognize (_ACCESS_URI_FORMAT blob_name) frame_rate)
       (recognize_response env) ;;
  poll_loop (poll_responses env).

(** [res.alternatives[0]] *)
Definition first_alternative (res : RecognitionResult) : M Alternative :=
  match alternatives res with
  | [] => raise IndexError
  | alt :: _ => ret alt
  end.

Fixpoint write_lines (ls : list SubtitleLine) : M unit :=
  match ls with
  | [] => ret tt
  | sl :: rest => emit (WriteLine sl) ;; write_lines rest
  end.

(** Lines 99 to 113: the loop over the results. *)
Fixpoint store_results (st : LineState) (results : list RecognitionResult)
  : M LineState :=
  match results with
  | [] => ret st
  | res :: rest =>
      alt <- first_alternative res ;;
      let '(out, st1) := segment_words st (words alt) in
      write_lines out ;;
      store_results st1 rest
  end.

(** Lines 95 to 116: everything written to the target. *)
Definition store_lines (results : list RecognitionResult) : M unit :=
  st <- store_results initial_state results ;;
  write_lines (last_line st).

(** Lines 92 to 116. *)
Definition store_phase (env : Env) (target_srt_path : string) : M unit :=
  call BlobDelete (delete_response env) ;;
  (if target_writable env then emit (OpenTarget target_srt_path)
   else raise OSError) ;;
  results <- respond (result_response env) ;;
  store_lines results.

Definition transcribe (env : Env) (source_audio_path target_srt_path : string)
  : M unit :=
  upload_phase env source_audio_path ;;
  recognize_phase env source_audio_path ;;
  store_phase env target_srt_path.

(** ** What a trace shows *)

(** The fractions passed to the callback for one phase, in order. *)
Fixpoint fractions_of (phase : string) (t : list Event) : list Q :=
  match t with
  | [] => []
  | Progress p f :: rest =>
      if String.eqb p phase then f :: fractions_of phase rest
      else fractions_of phase rest
  | _ :: rest => fractions_of phase rest
  end.

(** All the calls of the callback, in order. *)
Fixpoint callbacks (t : list Event) : list (string * Q) :=
  match t with
  | [] => []
  | Progress p f :: rest => (p, f) :: callbacks rest
  | _ :: rest => callbacks rest
  end.

(** The subtitle lines written, in order. *)
Fixpoint lines_written (t : list Event) : list SubtitleLine :=
  match t with
  | [] => []
  | WriteLine sl :: rest => sl :: lines_written rest
  | _ :: rest => lines_written rest
  end.

(** The text of the target file. *)
Definition srt_text (t : list Event) : string :=
  String.concat "" (flat_map _write_line (lines_written t)).

(** A request that leaves the machine. *)
Definition is_remote_call (ev : Event) : bool :=
  match ev with
  | Initiate _ | TransmitNextChunk | LongRunningRecognize _ _
  | OperationDone | BlobDelete => true
  | _ => false
  end.

(** The words a list of results contributes: those of each first
    alternative. *)
Definition word_stream (results : list RecognitionResult) : list WordInfo :=
  flat_map (fun res => match alternatives res with
                       | [] => []
                       | alt :: _ => words alt
                       end) results.

(** ** The subtitle lines of the specification

    The specification's reading of a subtitle line, kept apart from the
    loop above so that the two can be compared: a line is a group of
    consecutive words; it starts when its first word starts and ends when
    its last word ends. *)

Definition first_start (g : list WordInfo) : Z :=
  match g with
  | [] => 0
  | wd :: _ => word_start_time wd
  end.

Fixpoint last_end (g : list WordInfo) : Z :=
  match g with
  | [] => 0
  | [wd] => word_end_time wd
  | _ :: rest => last_end rest
  end.

Definition line_of_group (index : Z) (g : list WordInfo) : SubtitleLine :=
  {| sl_line := map word g;
     sl_index := index;
     sl_start_time := first_start g;
     sl_end_time := last_end g |}.

Fixpoint number_groups (index : Z) (gs : list (list WordInfo))
  : list SubtitleLine :=
  match gs with
  | [] => []
  | g :: rest => line_of_group index g :: number_groups (index + 1) rest
  end.

(** The same lines, the first of them starting at [start] instead. *)
Definition with_start (start : Z) (ls : list SubtitleLine)
  : list SubtitleLine :=
  match ls with
  | [] => []
  | l :: rest =>
      {| sl_line := sl_line l;
         sl_index := sl_index l;
         sl_start_time := start;
         sl_end_time := sl_end_time l |} :: rest
  end.


(** ** Sample inputs *)

Module Sample.

Definition at_ms (t : Z) : timedelta :=
  {| seconds := t / 1000; microseconds := (t mod 1000) * 1000 |}.

Definition spoken (text : string) (start stop : Z) : WordInfo :=
  {| word := text; start_time := at_ms start; end_time := at_ms stop |}.

Definition hello_world_foo : list WordInfo :=
  [spoken "Hello" 0 300; spoken "world" 350 700; spoken "foo" 2000 2300].

(** A single word spoken one second into the recording. *)
Definition late_hello : list WordInfo := [spoken "Hello" 1000 1300].

(** A file of ten bytes uploaded in one chunk; the operation answers the
    polls with [polls] and ends with [result]. *)
Definition env_of (polls : list PollResponse)
           (result : Response (list RecognitionResult)) : Env :=
  {| started := true;
     source_exists := true;
     initiate_response :=
       Returns {| finished := false; bytes_uploaded := 0; total_bytes := 10 |};
     transmit_responses :=
       [Returns {| finished := true; bytes_uploaded := 10; total_bytes := 10 |}];
     wave_framerate := Returns 16000;
     recognize_response := Returns tt;
     poll_responses := polls;
     delete_response := Returns tt;
     target_writable := true;
     result_response := result |}.

Definition one_result (ws : list WordInfo) : list RecognitionResult :=
  [ {| alternatives := [ {| words := ws |} ] |} ].

(** The operation is found running once, half way, then done. *)
Definition env_ok : Env :=
  env_of [Pending 50; Completed] (Returns (one_result hello_world_foo)).

(** The operation is done at the first poll, and has failed. *)
Definition env_failed : Env :=
  env_of [Completed] (Raises (GoogleAPICallError "audio too long")).

(** The engine reports 150 percent. *)
Definition env_overshoot : Env :=
  env_of [Pending 150; Completed] (Returns (one_result hello_world_foo)).

(** No file at the source path. *)
Definition env_missing : Env :=
  {| started := true;
     source_exists := false;
     initiate_response := Raises (TransportError "unreachable");
     transmit_responses := [];
     wave_framerate := Raises WaveError;
     recognize_response := Raises (GoogleAPICallError "unreachable");
     poll_responses := [];
     delete_response := Raises (GoogleAPICallError "unreachable");
     target_writable := true;
     result_response := Raises (GoogleAPICallError "unreachable") |}.

(** Thirteen words, each 300 ms long, 100 ms apart. *)
Definition thirteen_words : list WordInfo :=
  map (fun k => spoken "la" (400 * Z.of_nat k) (400 * Z.of_nat k + 300))
      (seq 0 13).

(** Two words, the second starting [gap] ms after the first has ended. *)
Definition two_words (gap : Z) : list WordInfo :=
  [spoken "one" 0 300; spoken "two" (300 + gap) (600 + gap)].

End Sample.

(** ** What the loops are expected to leave in the trace *)

(** The chunks the upload loop transmits: the scripted responses, up to the
    one that reports the upload finished. *)
Fixpoint transmitted (resumable : Resumable) (script : list (Response Resumable))
  : list Resumable :=
  if finished resumable then []
  else match script with
       | Returns r :: rest => r :: transmitted r rest
       | _ => []
       end.

(** One turn of the upload loop. *)
Definition chunk_events (r : Resumable) : list Event :=
  [ TransmitNextChunk;
    Progress "upload" (inject_Z (bytes_uploaded r) / inject_Z (total_bytes r))%Q ].

(** The progress read at each poll that found the operation running. *)
Fixpoint pending_percents (script : list PollResponse) : list Z :=
  match script with
  | Pending p :: rest => p :: pending_percents rest
  | _ => []
  end.

(** One turn of the polling loop. *)
Definition poll_events (progress_percent : Z) : list Event :=
  [ OperationDone;
    Progress "transcribe" (inject_Z progress_percent * (1 # 100))%Q;
    Sleep _PROGRESS_INTERVAL ].

(** A sequence of fractions that starts at 0; one that ends at 1. *)
Definition starts_at_zero (fractions : list Q) : Prop :=
  exists (first : Q) (rest : list Q),
    fractions = first :: rest /\ (first == 0)%Q.

Definition ends_at_one (fractions : list Q) : Prop :=
  exists (before : list Q) (last : Q),
    fractions = (before ++ [last])%list /\ (last == 1)%Q.

(** What the callback is promised: one of the two phases, and a fraction
    between 0 and 1. *)
Definition callback_in_contract (c : string * Q) : Prop :=
  (fst c = "upload" \/ fst c = "transcribe") /\ (0 <= snd c <= 1)%Q.

(** What the collaborators are expected to report: no more bytes uploaded
    than there are, and a percentage. *)
Definition upload_in_range (resp : Response Resumable) : Prop :=
  match resp with
  | Returns r => 0 <= bytes_uploaded r <= total_bytes r
  | Raises _ => True
  end.

Definition poll_in_range (resp : PollResponse) : Prop :=
  match resp with
  | Pending p => 0 <= p <= 100
  | Completed => True
  end.

(** ** Fixed-width fields *)

(** A number below 100 on two digits, a number below 1000 on three. *)
Definition two_digits (n : Z) : string :=
  String (PyFormat.digit (n / 10)) (String (PyFormat.digit (n mod 10)) "").

Definition three_digits (n : Z) : string :=
  String (PyFormat.digit (n / 100))
    (String (PyFormat.digit (n / 10 mod 10))
       (String (PyFormat.digit (n mod 10)) "")).

(** [forall n in 0 .. bound - 1, pad n = fixed n], as a test. *)
Definition agree_below (bound : nat) (pad fixed : Z -> string) : bool :=
  forallb (fun k => String.eqb (pad (Z.of_nat k)) (fixed (Z.of_nat k)))
          (seq 0 bound).

(** ** Invariants of the loop *)

(** The accumulator never holds more than twelve words; a line written
    holds between one and twelve. *)
Definition short_enough (st : LineState) : Prop :=
  (List.length (line st) <= 12)%nat.

Definition well_sized (sl : SubtitleLine) : Prop :=
  (1 <= List.length (sl_line sl) <= 12)%nat.

(** The state of the loop stands for the group [cur] of words read since
    the last line was written. *)
Definition tracks (cur : list WordInfo) (st : LineState) : Prop :=
  line st = map word cur /\
  (cur <> [] -> line_end_time st = last_end cur).

(** [res.alternatives[0]] exists. *)
Definition has_alternative (res : RecognitionResult) : Prop :=
  alternatives res <> [].


(** ** Times read from a [timedelta]

    A [datetime.timedelta] keeps [0 <= seconds < 86400] and
    [0 <= microseconds < 1000000], the rest being in its [days], which the
    code does not read. *)
Definition normalized (td : timedelta) : Prop :=
  0 <= seconds td < 86400 /\ 0 <= microseconds td < 1000000.

Definition well_timed (wd : WordInfo) : Prop :=
  normalized (start_time wd) /\ normalized (end_time wd).

Definition within_a_day (t : Z) : Prop := 0 <= t < 86400000.

Definition times_within_a_day (st : LineState) : Prop :=
  within_a_day (line_start_time st) /\ within_a_day (line_end_time st).

Definition twelve_wide (sl : SubtitleLine) : Prop :=
  String.length (_format_time (sl_start_time sl)) = 12%nat /\
  String.length (_format_time (sl_end_time sl)) = 12%nat.

(** ** [start] *)

(** The three globals of the module.  Each is unbound until [start] assigns
    it; a client is represented by the credential it was built from, the
    bucket by its name. *)
Record Globals := {
  _speech_client : option string;
  _storage_client : option string;
  _storage_bucket : option string
}.

(** The module as it is once imported. *)
Definition unbound : Globals :=
  {| _speech_client := None; _storage_client := None; _storage_bucket := None |}.

Inductive StartExn :=
| CredentialNotFound (message : string)  (* the [FileNotFoundError] of line 34 *)
| ClientError (detail : string).         (* raised by [from_service_account_json] *)

(** What [start] meets: the files that exist, and what the two
    [from_service_account_json] answer for a credential. *)
Record Credentials := {
  path_exists : string -> bool;
  speech_from_json : string -> option string;   (* [None], or the error *)
  storage_from_json : string -> option string
}.

(** [start(credential_path)]: the globals after the call, and the exception
    raised if any.  The assignments take place one by one, so that an
    exception leaves the earlier ones done. *)
Definition start (w : Credentials) (credential_path : string) (g : Globals)
  : Globals * option StartExn :=
  if negb (path_exists w credential_path)
  then (g, Some (CredentialNotFound
                   ("Credential does not exist: '" ++ credential_path ++ "'")))
  else match speech_from_json w credential_path with
       | Some detail => (g, Some (ClientError detail))
       | None =>
           let g1 := {| _speech_client := Some credential_path;
                        _storage_client := _storage_client g;
                        _storage_bucket := _storage_bucket g |} in
           match storage_from_json w credential_path with
           | Some detail => (g1, Some (ClientError detail))
           | None =>
               ({| _speech_client := Some credential_path;
                   _storage_client := Some credential_path;
                   _storage_bucket := Some _BUCKET_NAME |}, None)
           end
       end.

(** A series of calls of [start], whatever each raises. *)
Fixpoint starts (w : Credentials) (paths : list string) (g : Globals) : Globals :=
  match paths with
  | [] => g
  | p :: rest => starts w rest (fst (start w p g))
  end.

(** [transcribe] reads [_storage_bucket] first (line 66). *)
Definition bucket_bound (g : Globals) : bool :=
  match _storage_bucket g with Some _ => true | None => false end.

(** The environment [env], the module being in state [g]. *)
Definition in_module (g : Globals) (env : Env) : Env :=
  {| started := bucket_bound g;
     source_exists := source_exists env;
     initiate_response := initiate_response env;
     transmit_responses := transmit_responses env;
     wave_framerate := wave_framerate env;
     recognize_response := recognize_response env;
     poll_responses := poll_responses env;
     delete_response := delete_response env;
     target_writable := target_writable env;
     result_response := result_response env |}.

(** ** Words in time *)

(** Adjacent words of a group are less than [_LINE_INTERVAL] apart. *)
Fixpoint close_knit (g : list WordInfo) : Prop :=
  match g with
  | w1 :: ((w2 :: _) as rest) =>
      word_start_time w2 - word_end_time w1 < _LINE_INTERVAL /\ close_knit rest
  | _ => True
  end.

(** Between two groups in a row, the first is full or the second starts
    [_LINE_INTERVAL] or more after the first has ended. *)
Fixpoint splits_justified (gs : list (list WordInfo)) : Prop :=
  match gs with
  | g1 :: ((g2 :: _) as rest) =>
      (Z.of_nat (List.length g1) = _MAX_NUM_WORDS_IN_LINE \/
       first_start g2 - last_end g1 >= _LINE_INTERVAL) /\
      splits_justified rest
  | _ => True
  end.

(** Words in chronological order from time [t] on: none starts before [t],
    ends before it starts, or starts before the one before it has ended. *)
Fixpoint chronological_from (t : Z) (ws : list WordInfo) : Prop :=
  match ws with
  | [] => True
  | wd :: rest =>
      t <= word_start_time wd <= word_end_time wd /\
      chronological_from (word_end_time wd) rest
  end.

(** The same of subtitle lines. *)
Fixpoint lines_from (t : Z) (ls : list SubtitleLine) : Prop :=
  match ls with
  | [] => True
  | l :: rest =>
      t <= sl_start_time l <= sl_end_time l /\
      lines_from (sl_end_time l) rest
  end.

(** ** Counting events *)

Definition is_blob_delete (ev : Event) : bool :=
  match ev with BlobDelete => true | _ => false end.

Definition is_sleep (ev : Event) : bool :=
  match ev with Sleep _ => true | _ => false end.

Definition is_poll (ev : Event) : bool :=
  match ev with OperationDone => true | _ => false end.

(** Both loops have ended normally. *)
Definition polling_completed (env : Env) (source_audio_path : string) : bool :=
  match outcome (upload_phase env source_audio_path),
        outcome (recognize_phase env source_audio_path) with
  | Done _, Done _ => true
  | _, _ => false
  end.

(** A chunk after which the loop goes on. *)
Definition goes_on (r : Resumable) : Prop :=
  finished r = false /\ total_bytes r <> 0.

(** ** More sample environments *)

Module Faulty.

Definition half_way : Resumable :=
  {| finished := false; bytes_uploaded := 5; total_bytes := 10 |}.

(** Ten bytes in chunks of five; the second transmission fails. *)
Definition env_broken_pipe : Env :=
  {| started := true;
     source_exists := true;
     initiate_response :=
       Returns {| finished := false; bytes_uploaded := 0; total_bytes := 10 |};
     transmit_responses :=
       [Returns half_way; Raises (TransportError "broken pipe")];
     wave_framerate := Returns 16000;
     recognize_response := Returns tt;
     poll_responses := [Completed];
     delete_response := Returns tt;
     target_writable := true;
     result_response := Returns [] |}.

(** An empty file: the transport reports zero bytes out of zero. *)
Definition env_empty_file : Env :=
  {| started := true;
     source_exists := true;
     initiate_response :=
       Returns {| finished := false; bytes_uploaded := 0; total_bytes := 0 |};
     transmit_responses :=
       [Returns {| finished := true; bytes_uploaded := 0; total_bytes := 0 |}];
     wave_framerate := Returns 16000;
     recognize_response := Returns tt;
     poll_responses := [Completed];
     delete_response := Returns tt;
     target_writable := true;
     result_response := Returns [] |}.

(** A file that is not a WAV file. *)
Definition env_not_wave : Env :=
  {| started := true;
     source_exists := true;
     initiate_response :=
       Returns {| finished := false; bytes_uploaded := 0; total_bytes := 10 |};
     transmit_responses :=
       [Returns {| finished := true; bytes_uploaded := 10; total_bytes := 10 |}];
     wave_framerate := Raises WaveError;
     recognize_response := Returns tt;
     poll_responses := [Completed];
     delete_response := Returns tt;
     target_writable := true;
     result_response := Returns [] |}.

(** One credential file exists, and both clients accept it. *)
Definition one_credential : Credentials :=
  {| path_exists := fun p => String.eqb p "key.json";
     speech_from_json := fun _ => None;
     storage_from_json := fun _ => None |}.

End Faulty.

(** ** Calls of [start] that go through *)

(** The credential exists and both clients can be built from it. *)
Definition accepts (w : Credentials) (credential_path : string) : bool :=
  path_exists w credential_path
  && match speech_from_json w credential_path with None => true | Some _ => false end
  && match storage_from_json w credential_path with None => true | Some _ => false end.

(** Once the bucket is bound, so are the two clients. *)
Definition all_bound (g : Globals) : Prop :=
  bucket_bound g = true ->
  _storage_bucket g = Some _BUCKET_NAME /\
  _storage_client g <> None /\
  _speech_client g <> None.

(** ** Progress that does not go backwards *)

(** The transport reports a fixed [total] and a number of bytes uploaded
    that grows from [low] without passing the total. *)
Fixpoint growing (low total : Z) (chunks : list Resumable) : Prop :=
  match chunks with
  | [] => True
  | r :: rest =>
      total_bytes r = total /\ low <= bytes_uploaded r <= total /\
      growing (bytes_uploaded r) total rest
  end.

(** Fractions in non-decreasing order, from [low] on. *)
Fixpoint rising (low : Q) (fractions : list Q) : Prop :=
  match fractions with
  | [] => True
  | f :: rest => (low <= f)%Q /\ rising f rest
  end.

(** * Properties *)

Local Open Scope list_scope.

(** ** The segmentation loop *)

Section Segmentation.

Lemma starts_new_line_iff (st : LineState) (start : Z) :
  starts_new_line st start = true <->
  (List.length (line st) = 12%nat \/
   (line st <> [] /\ start - line_end_time st >= 500)).
Proof.
  unfold starts_new_line, _MAX_NUM_WORDS_IN_LINE, _LINE_INTERVAL.
  rewrite orb_true_iff, andb_true_iff, Z.eqb_eq, Z.geb_le.
  split; (intros [H | [H1 H2]];
          [left; lia | right; split; [destruct (line st); congruence | lia]]).
Qed.

Lemma starts_new_line_nonempty (st : LineState) (start : Z) :
  starts_new_line st start = true -> line st <> [].
Proof.
  rewrite starts_new_line_iff. intros [H | [H _]]; [|exact H].
  destruct (line st); [discriminate H | congruence].
Qed.

Lemma segment_words_app (ws1 ws2 : list WordInfo) (st : LineState) :
  segment_words st (ws1 ++ ws2) =
  (fst (segment_words st ws1) ++
   fst (segment_words (snd (segment_words st ws1)) ws2),
   snd (segment_words (snd (segment_words st ws1)) ws2)).
Proof.
  revert st. induction ws1 as [|wd ws1 IH]; intros st; simpl.
  - destruct (segment_words st ws2); reflexivity.
  - destruct (segment_word st wd) as [out st1]. rewrite IH.
    destruct (segment_words st1 ws1) as [o1 s1]; simpl.
    destruct (segment_words s1 ws2) as [o2 s2]; simpl.
    now rewrite app_assoc.
Qed.

Lemma segment_from_cons (st : LineState) (wd : WordInfo) (ws : list WordInfo) :
  segment_from st (wd :: ws) =
  fst (segment_word st wd) ++ segment_from (snd (segment_word st wd)) ws.
Proof.
  unfold segment_from; simpl.
  destruct (segment_word st wd) as [out st1]; simpl.
  destruct (segment_words st1 ws) as [outs st2].
  now rewrite app_assoc.
Qed.


(** After at least one word the accumulator is not empty. *)
Lemma append_word_nonempty (st : LineState) (wd : WordInfo) :
  line (append_word st wd) <> [].
Proof. simpl. destruct (line st); discriminate. Qed.

Lemma segment_word_nonempty (st : LineState) (wd : WordInfo) :
  line (snd (segment_word st wd)) <> [].
Proof.
  unfold segment_word.
  destruct (starts_new_line st (word_start_time wd));
    apply append_word_nonempty.
Qed.

Lemma segment_words_nonempty (ws : list WordInfo) (st : LineState) :
  line st <> [] -> line (snd (segment_words st ws)) <> [].
Proof.
  revert st. induction ws as [|wd ws IH]; intros st Hst; simpl; [exact Hst|].
  pose proof (segment_word_nonempty st wd) as H1.
  destruct (segment_word st wd) as [out st1]; simpl in H1.
  specialize (IH st1 H1).
  destruct (segment_words st1 ws) as [outs st2]; exact IH.
Qed.

(** *** Indices *)






Lemma segment_nonempty (ws : list WordInfo) :
  ws <> [] -> segment ws <> [].
Proof.
  destruct ws as [|wd ws]; [congruence|]. intros _.
  unfold segment. rewrite segment_from_cons.
  pose proof (segment_words_nonempty ws _ (segment_word_nonempty initial_state wd))
    as H.
  unfold segment_from.
  destruct (segment_words (snd (segment_word initial_state wd)) ws) as [o s].
  simpl in H. unfold last_line. destruct (line s); [congruence|].
  intros E. apply app_eq_nil in E. destruct E as [_ E].
  apply app_eq_nil in E. destruct E as [_ E]. discriminate E.
Qed.

(** *** Line lengths *)

Lemma segment_word_sizes (st : LineState) (wd : WordInfo) :
  short_enough st ->
  Forall well_sized (fst (segment_word st wd)) /\
  short_enough (snd (segment_word st wd)).
Proof.
  unfold short_enough, well_sized, segment_word. intros Hst.
  destruct (starts_new_line st (word_start_time wd)) eqn:E.
  - apply starts_new_line_nonempty in E. simpl. split; [|lia].
    constructor; [|constructor]. simpl.
    destruct (line st); [congruence | simpl in *; lia].
  - simpl. split; [constructor|]. rewrite length_app; simpl.
    assert (List.length (line st) <> 12%nat) as Hne.
    { intros H. rewrite (proj2 (starts_new_line_iff st _)) in E;
        [discriminate | left; exact H]. }
    lia.
Qed.

Lemma segment_words_sizes (ws : list WordInfo) (st : LineState) :
  short_enough st ->
  Forall well_sized (fst (segment_words st ws)) /\
  short_enough (snd (segment_words st ws)).
Proof.
  revert st. induction ws as [|wd ws IH]; intros st Hst; simpl.
  - split; [constructor | exact Hst].
  - destruct (segment_word_sizes st wd Hst) as [H1 H2].
    destruct (segment_word st wd) as [out st1]; simpl in H1, H2.
    destruct (IH st1 H2) as [H3 H4].
    destruct (segment_words st1 ws) as [outs st2]; simpl in *.
    split; [apply Forall_app; split; assumption | exact H4].
Qed.

Lemma segment_sizes (ws : list WordInfo) : Forall well_sized (segment ws).
Proof.
  unfold segment, segment_from.
  assert (short_enough initial_state) as H0 by (unfold short_enough; simpl; lia).
  destruct (segment_words_sizes ws initial_state H0) as [H1 H2].
  destruct (segment_words initial_state ws) as [out st]; simpl in H1, H2.
  apply Forall_app; split; [exact H1|].
  unfold last_line. destruct (line st) eqn:E; constructor; [|constructor].
  unfold well_sized, short_enough in *. simpl. rewrite E in *. simpl in *. lia.
Qed.

End Segmentation.

(** ** The loop against the specification's lines *)

Section Groups.

Lemma last_end_snoc (cur : list WordInfo) (wd : WordInfo) :
  last_end (cur ++ [wd]) = word_end_time wd.
Proof.
  induction cur as [|a cur IH]; [reflexivity|].
  simpl. destruct (cur ++ [wd]) eqn:E; [|exact IH].
  destruct cur; discriminate E.
Qed.

Lemma first_start_app (cur more : list WordInfo) :
  cur <> [] -> first_start (cur ++ more) = first_start cur.
Proof. destruct cur; [congruence | reflexivity]. Qed.

Lemma tracks_append (cur : list WordInfo) (st : LineState) (wd : WordInfo) :
  line st = map word cur -> tracks (cur ++ [wd]) (append_word st wd).
Proof.
  intros H. split; simpl.
  - now rewrite H, map_app.
  - intros _. now rewrite last_end_snoc.
Qed.

Lemma group_words_head (ws cur : list WordInfo) (st : LineState) :
  cur <> [] ->
  exists more gs, group_words cur st ws = (cur ++ more) :: gs.
Proof.
  revert cur st. induction ws as [|wd ws IH]; intros cur st Hc; simpl.
  - destruct cur; [congruence|]. exists [], []. now rewrite app_nil_r.
  - destruct (starts_new_line st (word_start_time wd)).
    + exists [], (group_words [wd]
                    (append_word (begin_line st (word_start_time wd)) wd) ws).
      now rewrite app_nil_r.
    + destruct (IH (cur ++ [wd]) (append_word st wd)) as (more & gs & E).
      { destruct cur; discriminate. }
      exists ([wd] ++ more), gs. now rewrite E, <- app_assoc.
Qed.

(** Every word ends up in a group, in order. *)
Lemma group_words_concat (ws cur : list WordInfo) (st : LineState) :
  List.concat (group_words cur st ws) = cur ++ ws.
Proof.
  revert cur st. induction ws as [|wd ws IH]; intros cur st; simpl.
  - destruct cur; simpl; [reflexivity | now rewrite !app_nil_r].
  - destruct (starts_new_line st (word_start_time wd)); simpl.
    + now rewrite IH.
    + now rewrite IH, <- app_assoc.
Qed.

Lemma group_words_nonempty (ws cur : list WordInfo) (st : LineState) :
  line st = map word cur ->
  Forall (fun g => g <> []) (group_words cur st ws).
Proof.
  revert cur st. induction ws as [|wd ws IH]; intros cur st Hl; simpl.
  - destruct cur; constructor; [discriminate | constructor].
  - destruct (starts_new_line st (word_start_time wd)) eqn:E.
    + constructor.
      * apply starts_new_line_nonempty in E. rewrite Hl in E.
        destruct cur; [exfalso; apply E; reflexivity | discriminate].
      * apply IH. reflexivity.
    + apply IH. simpl. now rewrite Hl, map_app.
Qed.

(** The lines the loop writes are the specification's lines of its groups,
    but for the start of the first of them, which is the value
    [line_start_time] has when the loop is entered. *)
Lemma segment_from_groups (ws cur : list WordInfo) (st : LineState) :
  tracks cur st ->
  segment_from st ws =
  with_start (line_start_time st)
    (number_groups (line_index st) (group_words cur st ws)).
Proof.
  revert cur st. induction ws as [|wd ws IH]; intros cur st [Hl He].
  - unfold segment_from, last_line; simpl. rewrite Hl.
    destruct cur as [|c cur]; simpl; [reflexivity|].
    unfold pending_line. rewrite Hl, He by discriminate. reflexivity.
  - rewrite segment_from_cons. unfold segment_word. cbn [group_words].
    destruct (starts_new_line st (word_start_time wd)) eqn:E; cbn [fst snd].
    + assert (cur <> []) as Hc.
      { apply starts_new_line_nonempty in E. rewrite Hl in E.
        destruct cur; [exfalso; apply E; reflexivity | discriminate]. }
      rewrite (IH [wd]) by (apply (tracks_append [] _ wd); reflexivity).
      destruct (group_words_head ws [wd]
                  (append_word (begin_line st (word_start_time wd)) wd))
        as (more & gs & G); [discriminate|].
      rewrite G. cbn [number_groups with_start app].
      unfold pending_line, line_of_group. rewrite Hl, (He Hc). simpl.
      reflexivity.
    + rewrite (IH (cur ++ [wd])) by (apply tracks_append; exact Hl).
      reflexivity.
Qed.

Lemma segment_groups (ws : list WordInfo) :
  segment ws = with_start 0 (number_groups 1 (groups ws)).
Proof.
  unfold segment, groups.
  rewrite (segment_from_groups ws [] initial_state); [reflexivity|].
  split; [reflexivity | congruence].
Qed.

(** Past the first line the loop and the specification agree. *)
Lemma segment_tail_groups (ws : list WordInfo) :
  tl (segment ws) = tl (number_groups 1 (groups ws)).
Proof.
  rewrite segment_groups. destruct (number_groups 1 (groups ws)); reflexivity.
Qed.

(** The first line starts at zero, whenever its first word starts. *)
Lemma first_line_starts_at_zero (ws : list WordInfo) :
  match segment ws with
  | [] => ws = []
  | sl :: _ => sl_start_time sl = 0
  end.
Proof.
  pose proof (segment_nonempty ws) as Hn.
  rewrite segment_groups in *.
  destruct (number_groups 1 (groups ws)); simpl in *.
  - destruct ws; [reflexivity | exfalso; apply Hn; congruence].
  - reflexivity.
Qed.

End Groups.

(** ** The segmenter's claims *)



(** C2, at the failing input: one word spoken from 1000 ms to 1300 ms.
    The line written starts at 0, not at 1000 where its first word starts;
    the specification's line for the same group starts at 1000. *)
Theorem first_line_start_ignores_first_word :
  segment Sample.late_hello =
    [ {| sl_line := ["Hello"]; sl_index := 1;
         sl_start_time := 0; sl_end_time := 1300 |} ]
  /\ map word_start_time Sample.late_hello = [1000]
  /\ number_groups 1 (groups Sample.late_hello) =
    [ {| sl_line := ["Hello"]; sl_index := 1;
         sl_start_time := 1000; sl_end_time := 1300 |} ].
Proof. repeat split; reflexivity. Qed.





(** ** Computations and their traces *)

(** Runs the requests and the emissions at the head of a computation. *)
Ltac run_calls := unfold call; cbn [ret emit respond raise bind app].

Section Computations.

Context {A B : Type}.

Lemma trace_bind (m : M A) (f : A -> M B) :
  trace (bind m f) =
  trace m ++ match outcome m with Done a => trace (f a) | _ => [] end.
Proof.
  destruct m as [t [a|e|]]; simpl.
  - destruct (f a); reflexivity.
  - now rewrite app_nil_r.
  - now rewrite app_nil_r.
Qed.

Lemma outcome_bind (m : M A) (f : A -> M B) :
  outcome (bind m f) =
  match outcome m with
  | Done a => outcome (f a)
  | Raised e => Raised e
  | Blocked => Blocked
  end.
Proof.
  destruct m as [t [a|e|]]; simpl; try reflexivity.
  destruct (f a); reflexivity.
Qed.

Lemma bind_done (m : M A) (f : A -> M B) (b : B) :
  outcome (bind m f) = Done b ->
  exists a, outcome m = Done a /\ outcome (f a) = Done b /\
            trace (bind m f) = trace m ++ trace (f a).
Proof.
  rewrite outcome_bind, trace_bind.
  destruct (outcome m) as [a|e|]; try discriminate.
  intros H. exists a. auto.
Qed.

End Computations.

Lemma callbacks_app (t1 t2 : list Event) :
  callbacks (t1 ++ t2) = callbacks t1 ++ callbacks t2.
Proof.
  induction t1 as [|ev t1 IH]; [reflexivity|].
  destruct ev; simpl; rewrite IH; reflexivity.
Qed.

Lemma fractions_of_app (phase : string) (t1 t2 : list Event) :
  fractions_of phase (t1 ++ t2) = fractions_of phase t1 ++ fractions_of phase t2.
Proof.
  induction t1 as [|ev t1 IH]; [reflexivity|].
  destruct ev; simpl; rewrite IH; try reflexivity.
  destruct (String.eqb phase0 phase); reflexivity.
Qed.

Lemma lines_written_app (t1 t2 : list Event) :
  lines_written (t1 ++ t2) = lines_written t1 ++ lines_written t2.
Proof.
  induction t1 as [|ev t1 IH]; [reflexivity|].
  destruct ev; simpl; rewrite IH; reflexivity.
Qed.

Lemma lines_written_write (ls : list SubtitleLine) :
  lines_written (map WriteLine ls) = ls.
Proof. induction ls as [|l ls IH]; simpl; [|rewrite IH]; reflexivity. Qed.

(** ** Storing the lines *)

Lemma write_lines_run (ls : list SubtitleLine) :
  write_lines ls = (map WriteLine ls, Done tt).
Proof.
  induction ls as [|l ls IH]; [reflexivity|].
  simpl. rewrite IH. reflexivity.
Qed.

Lemma store_results_run (results : list RecognitionResult) (st : LineState) :
  Forall has_alternative results ->
  store_results st results =
  (map WriteLine (fst (segment_words st (word_stream results))),
   Done (snd (segment_words st (word_stream results)))).
Proof.
  revert st. induction results as [|res results IH]; intros st Hall.
  - reflexivity.
  - inversion Hall as [|? ? Hres Hrest]; subst.
    unfold word_stream in *. cbn [store_results flat_map].
    unfold first_alternative, has_alternative in *.
    destruct (alternatives res) as [|alt alts]; [congruence|].
    cbn [bind ret]. rewrite segment_words_app.
    destruct (segment_words st (words alt)) as [out st1]; cbn [fst snd].
    rewrite write_lines_run; cbn [bind].
    rewrite (IH st1 Hrest). simpl. now rewrite map_app.
Qed.

(** With an alternative in every result, what is written is the
    segmentation of the stream of words. *)
Lemma store_lines_run (results : list RecognitionResult) :
  Forall has_alternative results ->
  store_lines results =
  (map WriteLine (segment (word_stream results)), Done tt).
Proof.
  intros Hall. unfold store_lines. rewrite (store_results_run _ _ Hall).
  unfold segment, segment_from.
  destruct (segment_words initial_state (word_stream results)) as [out st].
  cbn [fst snd bind]. rewrite write_lines_run. now rewrite map_app.
Qed.

(** ** The upload loop *)

Lemma truediv_run (a b : Z) :
  truediv a b =
  if b =? 0 then ([], Raised ZeroDivisionError)
  else ([], Done (inject_Z a / inject_Z b)%Q).
Proof. unfold truediv. destruct (b =? 0); reflexivity. Qed.

(** One turn of the loop, when the chunk goes through. *)
Lemma upload_loop_step (resumable r : Resumable)
      (rest : list (Response Resumable)) :
  finished resumable = false ->
  total_bytes r <> 0 ->
  upload_loop resumable (Returns r :: rest) =
  (chunk_events r ++ trace (upload_loop r rest), outcome (upload_loop r rest)).
Proof.
  intros Hf Ht. cbn [upload_loop]. rewrite Hf.
  run_calls.
  rewrite truediv_run. apply Z.eqb_neq in Ht. rewrite Ht. cbn [bind emit app].
  destruct (upload_loop r rest); reflexivity.
Qed.

(** A loop that ends normally has transmitted its chunks one by one,
    reporting after each of them, and never divided by zero. *)
Lemma upload_loop_done (script : list (Response Resumable)) (resumable : Resumable) :
  outcome (upload_loop resumable script) = Done tt ->
  trace (upload_loop resumable script) =
    flat_map chunk_events (transmitted resumable script) /\
  Forall (fun r => total_bytes r <> 0) (transmitted resumable script).
Proof.
  revert resumable. induction script as [|resp rest IH]; intros resumable.
  - cbn [upload_loop transmitted].
    destruct (finished resumable); [split; [reflexivity | constructor]|].
    discriminate.
  - destruct (finished resumable) eqn:Hf.
    + cbn [upload_loop transmitted]. rewrite Hf.
      split; [reflexivity | constructor].
    + destruct resp as [r|e].
      * destruct (Z.eq_dec (total_bytes r) 0) as [Hz|Hz].
        -- cbn [upload_loop]. rewrite Hf. run_calls. rewrite truediv_run, Hz.
           discriminate.
        -- rewrite (upload_loop_step _ _ _ Hf Hz). cbn [outcome trace fst snd].
           intros Hd. destruct (IH r Hd) as [Ht Hall].
           cbn [transmitted]. rewrite Hf. cbn [flat_map]. rewrite Ht.
           split; [reflexivity | constructor; assumption].
      * cbn [upload_loop]. rewrite Hf. discriminate.
Qed.

(** Whatever the transport answers, the loop only reports fractions of what
    it was told; they are within range when the transport's numbers are. *)
Lemma truediv_range (a b : Z) :
  0 <= a <= b -> b <> 0 -> (0 <= inject_Z a / inject_Z b <= 1)%Q.
Proof.
  intros [Ha Hab] Hb.
  assert (0 < inject_Z b)%Q as Hpos
      by (change 0%Q with (inject_Z 0); rewrite <- Zlt_Qlt; lia).
  split.
  - apply Qle_shift_div_l; [exact Hpos|]. rewrite Qmult_0_l.
    change 0%Q with (inject_Z 0). rewrite <- Zle_Qle. exact Ha.
  - apply Qle_shift_div_r; [exact Hpos|]. rewrite Qmult_1_l.
    rewrite <- Zle_Qle. exact Hab.
Qed.

Lemma percent_range (p : Z) :
  0 <= p <= 100 -> (0 <= inject_Z p * (1 # 100) <= 1)%Q.
Proof. intros [H0 H1]. unfold Qle; simpl. lia. Qed.

Lemma upload_loop_callbacks (script : list (Response Resumable))
      (resumable : Resumable) :
  Forall upload_in_range script ->
  Forall callback_in_contract
         (callbacks (trace (upload_loop resumable script))).
Proof.
  revert resumable. induction script as [|resp rest IH]; intros resumable Hall.
  - cbn [upload_loop]. destruct (finished resumable); constructor.
  - inversion Hall as [|? ? Hresp Hrest]; subst.
    destruct (finished resumable) eqn:Hf.
    + cbn [upload_loop]. rewrite Hf. constructor.
    + destruct resp as [r|e].
      * destruct (Z.eq_dec (total_bytes r) 0) as [Hz|Hz].
        -- cbn [upload_loop]. rewrite Hf. run_calls. rewrite truediv_run, Hz.
           constructor.
        -- rewrite (upload_loop_step _ _ _ Hf Hz). cbn [trace fst].
           rewrite callbacks_app. apply Forall_app; split; [|apply IH; exact Hrest].
           constructor; [|constructor]. split; [left; reflexivity|].
           apply truediv_range; [exact Hresp | exact Hz].
      * cbn [upload_loop]. rewrite Hf. constructor.
Qed.

(** ** The polling loop *)

Lemma poll_loop_pending (p : Z) (rest : list PollResponse) :
  poll_loop (Pending p :: rest) =
  (poll_events p ++ trace (poll_loop rest), outcome (poll_loop rest)).
Proof.
  cbn [poll_loop]. cbn [emit bind app].
  destruct (poll_loop rest); reflexivity.
Qed.

Lemma poll_loop_done (script : list PollResponse) :
  outcome (poll_loop script) = Done tt ->
  trace (poll_loop script) =
    flat_map poll_events (pending_percents script) ++ [OperationDone].
Proof.
  induction script as [|resp rest IH]; [discriminate|].
  destruct resp as [p|].
  - rewrite poll_loop_pending. cbn [outcome trace fst snd]. intros Hd.
    cbn [pending_percents flat_map]. rewrite (IH Hd), <- app_assoc. reflexivity.
  - intros _. reflexivity.
Qed.

Lemma poll_loop_callbacks (script : list PollResponse) :
  Forall poll_in_range script ->
  Forall callback_in_contract (callbacks (trace (poll_loop script))).
Proof.
  induction script as [|resp rest IH]; intros Hall; [constructor|].
  inversion Hall as [|? ? Hresp Hrest]; subst.
  destruct resp as [p|].
  - rewrite poll_loop_pending. cbn [trace fst]. rewrite callbacks_app.
    apply Forall_app; split; [|apply IH; exact Hrest].
    constructor; [|constructor]. split; [right; reflexivity|].
    apply percent_range. exact Hresp.
  - constructor.
Qed.

(** The polling loop reports nothing for the upload, and conversely. *)
Lemma poll_loop_no_upload (script : list PollResponse) :
  fractions_of "upload" (trace (poll_loop script)) = [].
Proof.
  induction script as [|resp rest IH]; [reflexivity|].
  destruct resp as [p|]; [|reflexivity].
  rewrite poll_loop_pending. cbn [trace fst]. rewrite fractions_of_app, IH.
  reflexivity.
Qed.

Lemma chunks_no_transcribe (chunks : list Resumable) :
  fractions_of "transcribe" (flat_map chunk_events chunks) = [].
Proof.
  induction chunks as [|r chunks IH]; [reflexivity|].
  cbn [flat_map]. rewrite fractions_of_app, IH. reflexivity.
Qed.

Lemma chunks_upload (chunks : list Resumable) :
  fractions_of "upload" (flat_map chunk_events chunks) =
  map (fun r => (inject_Z (bytes_uploaded r) / inject_Z (total_bytes r))%Q) chunks.
Proof.
  induction chunks as [|r chunks IH]; [reflexivity|].
  cbn [flat_map]. rewrite fractions_of_app, IH. reflexivity.
Qed.

Lemma polls_transcribe (percents : list Z) :
  fractions_of "transcribe" (flat_map poll_events percents) =
  map (fun p => (inject_Z p * (1 # 100))%Q) percents.
Proof.
  induction percents as [|p percents IH]; [reflexivity|].
  cbn [flat_map]. rewrite fractions_of_app, IH. reflexivity.
Qed.

(** ** The three phases *)

Lemma zero_one_in_contract :
  callback_in_contract ("upload", 0%Q) /\ callback_in_contract ("upload", 1%Q).
Proof.
  unfold callback_in_contract; simpl.
  repeat split; try (left; reflexivity); unfold Qle; simpl; lia.
Qed.

(** A finished upload: what was required, and the whole trace. *)
Lemma upload_phase_done (env : Env) (source_audio_path : string) :
  outcome (upload_phase env source_audio_path) = Done tt ->
  started env = true /\ source_exists env = true /\
  exists r0,
    initiate_response env = Returns r0 /\
    Forall (fun r => total_bytes r <> 0)
           (transmitted r0 (transmit_responses env)) /\
    trace (upload_phase env source_audio_path) =
      [Initiate (basename source_audio_path); Progress "upload" 0%Q]
      ++ flat_map chunk_events (transmitted r0 (transmit_responses env))
      ++ [Progress "upload" 1%Q].
Proof.
  unfold upload_phase.
  destruct (started env); [|discriminate].
  destruct (source_exists env); [|discriminate].
  destruct (initiate_response env) as [r0|e]; [|discriminate].
  run_calls.
  destruct (upload_loop r0 (transmit_responses env)) as [t o] eqn:E.
  destruct o as [[]|e|]; cbn [bind emit outcome trace snd fst app];
    try discriminate.
  intros _. split; [reflexivity|]. split; [reflexivity|]. exists r0.
  destruct (upload_loop_done (transmit_responses env) r0) as [Ht Hall];
    [now rewrite E|].
  rewrite E in Ht. cbn [trace fst] in Ht. subst t.
  split; [reflexivity|]. split; [exact Hall | reflexivity].
Qed.

Lemma upload_phase_callbacks (env : Env) (source_audio_path : string) :
  Forall upload_in_range (transmit_responses env) ->
  Forall callback_in_contract
         (callbacks (trace (upload_phase env source_audio_path))).
Proof.
  intros Hall. unfold upload_phase.
  destruct (started env); [|constructor].
  destruct (source_exists env); [|constructor].
  destruct (initiate_response env) as [r0|e]; [|constructor].
  run_calls.
  pose proof (upload_loop_callbacks _ r0 Hall) as Hloop.
  destruct (upload_loop r0 (transmit_responses env)) as [t o].
  cbn [trace fst] in Hloop.
  destruct o as [[]|e|]; cbn [bind emit trace fst app callbacks];
    (constructor; [apply zero_one_in_contract|]); try exact Hloop.
  rewrite callbacks_app. apply Forall_app; split; [exact Hloop|].
  constructor; [apply zero_one_in_contract | constructor].
Qed.

Lemma upload_phase_no_transcribe (env : Env) (source_audio_path : string) :
  outcome (upload_phase env source_audio_path) = Done tt ->
  fractions_of "transcribe" (trace (upload_phase env source_audio_path)) = [].
Proof.
  intros Hd. destruct (upload_phase_done _ _ Hd) as (_ & _ & r0 & _ & _ & Ht).
  rewrite Ht, !fractions_of_app, chunks_no_transcribe. reflexivity.
Qed.

(** A finished recognition phase ends with the poll that found the
    operation done. *)
Lemma recognize_phase_done (env : Env) (source_audio_path : string) :
  outcome (recognize_phase env source_audio_path) = Done tt ->
  exists frame_rate,
    wave_framerate env = Returns frame_rate /\
    trace (recognize_phase env source_audio_path) =
      [LongRunningRecognize
         (_ACCESS_URI_FORMAT (basename source_audio_path)) frame_rate]
      ++ flat_map poll_events (pending_percents (poll_responses env))
      ++ [OperationDone].
Proof.
  unfold recognize_phase.
  destruct (wave_framerate env) as [frame_rate|e]; [|discriminate].
  destruct (recognize_response env) as [[]|e]; [|discriminate].
  run_calls.
  destruct (poll_loop (poll_responses env)) as [t o] eqn:E.
  cbn [outcome snd trace fst]. intros Ho. subst o.
  exists frame_rate. split; [reflexivity|].
  rewrite <- (poll_loop_done (poll_responses env)) by now rewrite E.
  rewrite E. reflexivity.
Qed.

Lemma recognize_phase_callbacks (env : Env) (source_audio_path : string) :
  Forall poll_in_range (poll_responses env) ->
  Forall callback_in_contract
         (callbacks (trace (recognize_phase env source_audio_path))).
Proof.
  intros Hall. unfold recognize_phase.
  destruct (wave_framerate env) as [frame_rate|e]; [|constructor].
  destruct (recognize_response env) as [[]|e]; [|constructor].
  run_calls.
  pose proof (poll_loop_callbacks _ Hall) as Hloop.
  destruct (poll_loop (poll_responses env)) as [t o]. exact Hloop.
Qed.

Lemma recognize_phase_no_upload (env : Env) (source_audio_path : string) :
  fractions_of "upload" (trace (recognize_phase env source_audio_path)) = [].
Proof.
  unfold recognize_phase.
  destruct (wave_framerate env) as [frame_rate|e]; [|reflexivity].
  destruct (recognize_response env) as [[]|e]; [|reflexivity].
  run_calls.
  pose proof (poll_loop_no_upload (poll_responses env)) as Hloop.
  destruct (poll_loop (poll_responses env)) as [t o]. exact Hloop.
Qed.

(** The last phase only deletes, opens and writes. *)
Lemma store_results_writes (results : list RecognitionResult) (st : LineState) :
  exists ls, trace (store_results st results) = map WriteLine ls.
Proof.
  revert st. induction results as [|res results IH]; intros st.
  - exists []. reflexivity.
  - cbn [store_results]. unfold first_alternative.
    destruct (alternatives res) as [|alt alts]; [exists []; reflexivity|].
    cbn [bind ret]. destruct (segment_words st (words alt)) as [out st1].
    rewrite write_lines_run. cbn [bind]. destruct (IH st1) as [ls Hls].
    destruct (store_results st1 results) as [t o]. cbn [trace fst] in *.
    exists (out ++ ls). subst t. now rewrite map_app.
Qed.

Lemma store_lines_writes (results : list RecognitionResult) :
  exists ls, trace (store_lines results) = map WriteLine ls.
Proof.
  unfold store_lines. destruct (store_results_writes results initial_state)
    as [ls Hls].
  destruct (store_results initial_state results) as [t o].
  cbn [trace fst] in Hls. subst t.
  destruct o as [st|e|]; cbn [bind trace fst].
  - rewrite write_lines_run. exists (ls ++ last_line st). now rewrite map_app.
  - exists ls; reflexivity.
  - exists ls; reflexivity.
Qed.

Lemma callbacks_write (ls : list SubtitleLine) :
  callbacks (map WriteLine ls) = [].
Proof. induction ls as [|l ls IH]; [reflexivity | exact IH]. Qed.

Lemma store_phase_callbacks (env : Env) (target_srt_path : string) :
  callbacks (trace (store_phase env target_srt_path)) = [].
Proof.
  unfold store_phase, call.
  destruct (delete_response env) as [[]|e]; [|reflexivity].
  cbn [ret emit respond bind app].
  destruct (target_writable env); [|reflexivity].
  cbn [emit bind app].
  destruct (result_response env) as [results|e]; [|reflexivity].
  cbn [respond ret bind app].
  destruct (store_lines_writes results) as [ls Hls].
  destruct (store_lines results) as [t o]. cbn [trace fst] in *. subst t.
  cbn [callbacks app]. apply callbacks_write.
Qed.

Lemma fractions_of_callbacks (phase : string) (t : list Event) :
  callbacks t = [] -> fractions_of phase t = [].
Proof.
  induction t as [|ev t IH]; [reflexivity|].
  destruct ev; simpl; try exact IH. discriminate.
Qed.

(** ** The whole call *)

Lemma transcribe_trace (env : Env) (source_audio_path target_srt_path : string) :
  trace (transcribe env source_audio_path target_srt_path) =
  trace (upload_phase env source_audio_path)
  ++ match outcome (upload_phase env source_audio_path) with
     | Done _ =>
         trace (recognize_phase env source_audio_path)
         ++ match outcome (recognize_phase env source_audio_path) with
            | Done _ => trace (store_phase env target_srt_path)
            | _ => []
            end
     | _ => []
     end.
Proof.
  unfold transcribe. rewrite trace_bind.
  destruct (outcome (upload_phase env source_audio_path)); [|reflexivity ..].
  now rewrite trace_bind.
Qed.

Lemma transcribe_outcome (env : Env) (source_audio_path target_srt_path : string) :
  outcome (upload_phase env source_audio_path) = Done tt ->
  outcome (recognize_phase env source_audio_path) = Done tt ->
  outcome (transcribe env source_audio_path target_srt_path) =
  outcome (store_phase env target_srt_path).
Proof.
  intros H1 H2. unfold transcribe. now rewrite outcome_bind, H1, outcome_bind, H2.
Qed.

(** Upload events come from the upload phase alone. *)
Lemma transcribe_upload_fractions (env : Env)
      (source_audio_path target_srt_path : string) :
  fractions_of "upload" (trace (transcribe env source_audio_path target_srt_path)) =
  fractions_of "upload" (trace (upload_phase env source_audio_path)).
Proof.
  rewrite transcribe_trace, fractions_of_app.
  destruct (outcome (upload_phase env source_audio_path));
    [|now rewrite app_nil_r ..].
  rewrite fractions_of_app, recognize_phase_no_upload.
  destruct (outcome (recognize_phase env source_audio_path));
    [|now rewrite app_nil_r ..].
  rewrite (fractions_of_callbacks _ _ (store_phase_callbacks env target_srt_path)).
  now rewrite app_nil_r.
Qed.

(** ** The pipeline's claims *)

(** C3, as stated, fails for the transcribe phase: the operation is found
    running at 50 percent, then done; the call returns, and the only
    transcribe event it has delivered carries 1/2. *)
Lemma transcribe_progress_stops_short_of_one :
  outcome (transcribe Sample.env_ok "talk.wav" "talk.srt") = Done tt /\
  fractions_of "transcribe"
    (trace (transcribe Sample.env_ok "talk.wav" "talk.srt")) =
    [(inject_Z 50 * (1 # 100))%Q] /\
  ~ ends_at_one
      (fractions_of "transcribe"
         (trace (transcribe Sample.env_ok "talk.wav" "talk.srt"))).
Proof.
  split; [reflexivity|]. split; [reflexivity|].
  intros (before & last & E & H).
  change (fractions_of "transcribe"
            (trace (transcribe Sample.env_ok "talk.wav" "talk.srt")))
    with ([] ++ [(inject_Z 50 * (1 # 100))%Q]) in E.
  apply app_inj_tail in E. destruct E as [_ E]. subst last.
  unfold Qeq in H; simpl in H. discriminate H.
Qed.

(** C3, amended.  When the upload and the polling both end normally, the
    upload events of the call start at 0 and end at 1; the transcribe events
    are the percentages read at the polls that found the operation running,
    each times 1/100, and nothing else: no 0 is put before them and no 1
    after them. *)
Theorem progress_of_each_phase :
  forall (env : Env) (source_audio_path target_srt_path : string),
    outcome (upload_phase env source_audio_path) = Done tt ->
    outcome (recognize_phase env source_audio_path) = Done tt ->
    let t := trace (transcribe env source_audio_path target_srt_path) in
    starts_at_zero (fractions_of "upload" t) /\
    ends_at_one (fractions_of "upload" t) /\
    fractions_of "transcribe" t =
      map (fun p => (inject_Z p * (1 # 100))%Q)
          (pending_percents (poll_responses env)).
Proof.
  intros env src tgt Hup Hrec t. subst t.
  destruct (upload_phase_done _ _ Hup) as (_ & _ & r0 & _ & _ & Ht).
  rewrite transcribe_upload_fractions.
  split; [|split].
  - rewrite Ht. eexists _, _. split; [reflexivity|]. reflexivity.
  - rewrite Ht, app_assoc, fractions_of_app.
    eexists _, 1%Q. split; [reflexivity|]. reflexivity.
  - rewrite transcribe_trace, Hup, Hrec, !fractions_of_app.
    rewrite (upload_phase_no_transcribe _ _ Hup).
    rewrite (fractions_of_callbacks _ _ (store_phase_callbacks env tgt)).
    destruct (recognize_phase_done _ _ Hrec) as (frame_rate & _ & Hr).
    rewrite Hr, !fractions_of_app, polls_transcribe. cbn [app fractions_of].
    now rewrite !app_nil_r.
Qed.

Lemma progress_of_each_phase_witness :
  starts_at_zero
    (fractions_of "upload"
       (trace (transcribe Sample.env_ok "talk.wav" "talk.srt"))) /\
  ends_at_one
    (fractions_of "upload"
       (trace (transcribe Sample.env_ok "talk.wav" "talk.srt"))) /\
  fractions_of "transcribe"
    (trace (transcribe Sample.env_ok "talk.wav" "talk.srt")) =
    [(inject_Z 50 * (1 # 100))%Q].
Proof.
  apply (progress_of_each_phase Sample.env_ok "talk.wav" "talk.srt");
    reflexivity.
Defined.

(** C4, as stated, fails: the operation is done at the first poll and has
    failed; the call raises the operation's error, and the blob has been
    deleted by then. *)
Lemma blob_deleted_although_recognition_failed :
  transcribe Sample.env_failed "talk.wav" "talk.srt" =
    ([ Initiate "talk.wav"; Progress "upload" 0%Q; TransmitNextChunk;
       Progress "upload" (inject_Z 10 / inject_Z 10)%Q; Progress "upload" 1%Q;
       LongRunningRecognize "gs://wearable-ml-recorded-audio/talk.wav" 16000;
       OperationDone; BlobDelete; OpenTarget "talk.srt" ],
     Raised (GoogleAPICallError "audio too long")) /\
  In BlobDelete (trace (transcribe Sample.env_failed "talk.wav" "talk.srt")).
Proof.
  split; [reflexivity|]. simpl. tauto.
Qed.

(** C4, amended.  When the upload and the polling have ended normally and
    the operation has failed, the call raises the operation's error once
    polling has stopped; by then the blob has been deleted and the target
    opened, in that order, and nothing has been written: the delete comes
    right after the last poll, before the result is asked for. *)
Theorem recognition_failure_after_cleanup :
  forall (env : Env) (source_audio_path target_srt_path detail : string),
    outcome (upload_phase env source_audio_path) = Done tt ->
    outcome (recognize_phase env source_audio_path) = Done tt ->
    delete_response env = Returns tt ->
    target_writable env = true ->
    result_response env = Raises (GoogleAPICallError detail) ->
    transcribe env source_audio_path target_srt_path =
      (trace (upload_phase env source_audio_path)
       ++ trace (recognize_phase env source_audio_path)
       ++ [BlobDelete; OpenTarget target_srt_path],
       Raised (GoogleAPICallError detail)) /\
    (exists polling,
        trace (recognize_phase env source_audio_path) =
        polling ++ [OperationDone]).
Proof.
  intros env src tgt detail Hup Hrec Hdel Htgt Hres.
  assert (store_phase env tgt =
          ([BlobDelete; OpenTarget tgt], Raised (GoogleAPICallError detail)))
    as Hstore.
  { unfold store_phase, call. rewrite Hdel, Htgt, Hres. reflexivity. }
  split.
  - apply injective_projections.
    + change (fst ?m) with (trace m) at 1. rewrite transcribe_trace, Hup, Hrec.
      now rewrite Hstore.
    + change (snd ?m) with (outcome m) at 1.
      rewrite (transcribe_outcome _ _ _ Hup Hrec). now rewrite Hstore.
  - destruct (recognize_phase_done _ _ Hrec) as (frame_rate & _ & Hr).
    rewrite Hr, app_assoc. eexists. reflexivity.
Qed.

Lemma recognition_failure_after_cleanup_witness :
  outcome (transcribe Sample.env_failed "talk.wav" "talk.srt") =
    Raised (GoogleAPICallError "audio too long").
Proof.
  exact (f_equal snd
           (proj1 (recognition_failure_after_cleanup Sample.env_failed
                     "talk.wav" "talk.srt" "audio too long"
                     eq_refl eq_refl eq_refl eq_refl eq_refl))).
Defined.

(** C5.  An upload that ends normally has left, in this order:
    the initiation, [(upload, 0)], then for each chunk transmitted the
    transmission followed by [(upload, bytes_uploaded / total_bytes)] with
    [total_bytes] not zero, then [(upload, 1)].  Over the whole call these
    are all the upload events: none follows the closing [(upload, 1)]. *)
Theorem upload_progress_events :
  forall (env : Env) (source_audio_path target_srt_path : string),
    outcome (upload_phase env source_audio_path) = Done tt ->
    exists r0 : Resumable,
      initiate_response env = Returns r0 /\
      let chunks := transmitted r0 (transmit_responses env) in
      trace (upload_phase env source_audio_path) =
        [Initiate (basename source_audio_path); Progress "upload" 0%Q]
        ++ flat_map chunk_events chunks
        ++ [Progress "upload" 1%Q] /\
      Forall (fun r => total_bytes r <> 0) chunks /\
      fractions_of "upload"
        (trace (transcribe env source_audio_path target_srt_path)) =
        0%Q :: map (fun r => (inject_Z (bytes_uploaded r)
                              / inject_Z (total_bytes r))%Q) chunks
            ++ [1%Q].
Proof.
  intros env src tgt Hup.
  destruct (upload_phase_done _ _ Hup) as (_ & _ & r0 & Hi & Hall & Ht).
  exists r0. split; [exact Hi|]. cbn zeta. split; [exact Ht|].
  split; [exact Hall|].
  rewrite transcribe_upload_fractions, Ht, !fractions_of_app, chunks_upload.
  reflexivity.
Qed.

Lemma upload_progress_events_witness :
  exists r0 : Resumable,
    initiate_response Sample.env_ok = Returns r0 /\
    trace (upload_phase Sample.env_ok "talk.wav") =
      [Initiate "talk.wav"; Progress "upload" 0%Q]
      ++ flat_map chunk_events (transmitted r0 (transmit_responses Sample.env_ok))
      ++ [Progress "upload" 1%Q] /\
    Forall (fun r => total_bytes r <> 0)
           (transmitted r0 (transmit_responses Sample.env_ok)) /\
    fractions_of "upload"
      (trace (transcribe Sample.env_ok "talk.wav" "talk.srt")) =
      0%Q :: map (fun r => (inject_Z (bytes_uploaded r)
                            / inject_Z (total_bytes r))%Q)
                 (transmitted r0 (transmit_responses Sample.env_ok))
          ++ [1%Q].
Proof.
  exact (upload_progress_events Sample.env_ok "talk.wav" "talk.srt" eq_refl).
Defined.

(** C7, as stated, fails: the engine reports 150 percent while the operation
    runs; the callback receives 150/100, which is above 1. *)
Lemma callback_fraction_above_one :
  callbacks (trace (transcribe Sample.env_overshoot "talk.wav" "talk.srt")) =
    [ ("upload", 0%Q); ("upload", (inject_Z 10 / inject_Z 10)%Q);
      ("upload", 1%Q); ("transcribe", (inject_Z 150 * (1 # 100))%Q) ] /\
  ~ Forall callback_in_contract
      (callbacks (trace (transcribe Sample.env_overshoot "talk.wav" "talk.srt"))).
Proof.
  split; [reflexivity|]. intros H.
  rewrite Forall_forall in H.
  destruct (H ("transcribe", (inject_Z 150 * (1 # 100))%Q)) as [_ [_ Hle]].
  - simpl. tauto.
  - unfold Qle in Hle; simpl in Hle. lia.
Qed.

(** C7, amended.  Every call of the callback passes ["upload"] or
    ["transcribe"], and a fraction between 0 and 1 as long as the transport
    never reports more bytes uploaded than the total, nor a negative
    number of them, and the engine reports percentages between 0 and 100;
    this holds however the call ends.  The fractions are passed on as they
    are computed, without clamping. *)
Theorem callbacks_in_contract :
  forall (env : Env) (source_audio_path target_srt_path : string),
    Forall upload_in_range (transmit_responses env) ->
    Forall poll_in_range (poll_responses env) ->
    Forall callback_in_contract
           (callbacks (trace (transcribe env source_audio_path target_srt_path))).
Proof.
  intros env src tgt Hup Hpoll.
  rewrite transcribe_trace, callbacks_app.
  apply Forall_app; split; [apply upload_phase_callbacks; exact Hup|].
  destruct (outcome (upload_phase env src)); [|constructor ..].
  rewrite callbacks_app.
  apply Forall_app; split; [apply recognize_phase_callbacks; exact Hpoll|].
  destruct (outcome (recognize_phase env src)); [|constructor ..].
  rewrite store_phase_callbacks. constructor.
Qed.

Lemma callbacks_in_contract_witness :
  Forall callback_in_contract
         (callbacks (trace (transcribe Sample.env_ok "talk.wav" "talk.srt"))).
Proof.
  apply (callbacks_in_contract Sample.env_ok "talk.wav" "talk.srt").
  - repeat constructor; simpl; lia.
  - repeat constructor; simpl; lia.
Defined.

(** C10.  With the clients set up and no file at the source path, the call
    raises the [FileNotFoundError] of [open] (the invalid-input error) and
    has done nothing before: no request has left the machine, neither the
    initiation of the upload nor the recognition request, and the callback
    has not been called. *)
Theorem missing_source_fails_first :
  forall (env : Env) (source_audio_path target_srt_path : string),
    started env = true ->
    source_exists env = false ->
    let run := transcribe env source_audio_path target_srt_path in
    outcome run = Raised (FileNotFoundError source_audio_path) /\
    trace run = [] /\
    filter is_remote_call (trace run) = [] /\
    callbacks (trace run) = [].
Proof.
  intros env src tgt Hs He run.
  assert (run = ([], Raised (FileNotFoundError src))) as E.
  { unfold run, transcribe, upload_phase. rewrite Hs, He. reflexivity. }
  rewrite E. repeat split; reflexivity.
Qed.

Lemma missing_source_fails_first_witness :
  outcome (transcribe Sample.env_missing "nowhere.wav" "talk.srt") =
    Raised (FileNotFoundError "nowhere.wav") /\
  trace (transcribe Sample.env_missing "nowhere.wav" "talk.srt") = [] /\
  filter is_remote_call
    (trace (transcribe Sample.env_missing "nowhere.wav" "talk.srt")) = [] /\
  callbacks (trace (transcribe Sample.env_missing "nowhere.wav" "talk.srt")) = [].
Proof.
  exact (missing_source_fails_first Sample.env_missing "nowhere.wav" "talk.srt"
           eq_refl eq_refl).
Defined.

(** ** Time codes *)

Section TimeCode.

Lemma agree_below_spec (bound : nat) (pad fixed : Z -> string) :
  agree_below bound pad fixed = true ->
  forall n : Z, 0 <= n < Z.of_nat bound -> pad n = fixed n.
Proof.
  unfold agree_below. rewrite forallb_forall. intros H n Hn.
  apply String.eqb_eq. rewrite <- (Z2Nat.id n) by lia.
  apply H. apply in_seq. lia.
Qed.

Lemma zero_pad_two (n : Z) :
  0 <= n < 100 -> PyFormat.zero_pad 2 n = two_digits n.
Proof.
  apply (agree_below_spec 100 (PyFormat.zero_pad 2) two_digits).
  vm_compute. reflexivity.
Qed.

Lemma zero_pad_three (n : Z) :
  0 <= n < 1000 -> PyFormat.zero_pad 3 n = three_digits n.
Proof.
  apply (agree_below_spec 1000 (PyFormat.zero_pad 3) three_digits).
  vm_compute. reflexivity.
Qed.

Lemma format_time_fields (millis : Z) :
  0 <= millis < 360000000 ->
  _format_time millis =
    (two_digits (millis / 3600000) ++ ":" ++
     two_digits (millis / 60000 mod 60) ++ ":" ++
     two_digits (millis / 1000 mod 60) ++ "," ++
     three_digits (millis mod 1000))%string.
Proof.
  intros [H0 H1]. unfold _format_time.
  change (3600 * 10 ^ 3) with 3600000. change (60 * 10 ^ 3) with 60000.
  change (10 ^ 3) with 1000.
  rewrite (zero_pad_two (millis / 3600000)).
  - rewrite (zero_pad_two (millis / 60000 mod 60))
      by (pose proof (Z.mod_pos_bound (millis / 60000) 60); lia).
    rewrite (zero_pad_two (millis / 1000 mod 60))
      by (pose proof (Z.mod_pos_bound (millis / 1000) 60); lia).
    rewrite (zero_pad_three (millis mod 1000)) by (apply Z.mod_pos_bound; lia).
    reflexivity.
  - split; [apply Z.div_pos; lia | apply Z.div_lt_upper_bound; lia].
Qed.

(** C6, as stated, fails from one hundred hours on: the hours take three
    digits and the string is one character longer than at 0. *)
Lemma format_time_hundred_hours :
  _format_time 360000000 = "100:00:00,000" /\
  String.length (_format_time 360000000) <> String.length (_format_time 0).
Proof. split; [vm_compute; reflexivity | vm_compute; discriminate]. Qed.

(** C6, amended.  For every [millis] from 0 to 359999999 (less than one
    hundred hours) the string is [HH:MM:SS,mmm]: twelve characters, the
    hours [millis / 3600000], the minutes [millis / 60000 mod 60] and the
    seconds [millis / 1000 mod 60] on two digits each, the milliseconds
    [millis mod 1000] on three, zeros included.  So it is at 0, 3661001 and
    59999. *)
Theorem format_time_fixed_width :
  forall millis : Z,
    0 <= millis < 360000000 ->
    _format_time millis =
      (two_digits (millis / 3600000) ++ ":" ++
       two_digits (millis / 60000 mod 60) ++ ":" ++
       two_digits (millis / 1000 mod 60) ++ "," ++
       three_digits (millis mod 1000))%string /\
    String.length (_format_time millis) = 12%nat /\
    _format_time 0 = "00:00:00,000" /\
    _format_time 3661001 = "01:01:01,001" /\
    _format_time 59999 = "00:00:59,999".
Proof.
  intros millis Hm. split; [apply format_time_fields; exact Hm|].
  split; [rewrite (format_time_fields millis Hm); reflexivity|].
  repeat split; vm_compute; reflexivity.
Qed.

Lemma format_time_fixed_width_witness :
  _format_time 3661001 = "01:01:01,001" /\
  String.length (_format_time 3661001) = 12%nat.
Proof.
  pose proof (format_time_fixed_width 3661001 ltac:(lia)) as (_ & Hlen & _ & Hex & _).
  split; [exact Hex | exact Hlen].
Defined.

End TimeCode.

(** ** A call that succeeds *)

Section Success.

Lemma chunks_write_nothing (chunks : list Resumable) :
  lines_written (flat_map chunk_events chunks) = [].
Proof. induction chunks as [|r chunks IH]; [reflexivity | exact IH]. Qed.

Lemma polls_write_nothing (percents : list Z) :
  lines_written (flat_map poll_events percents) = [].
Proof. induction percents as [|p percents IH]; [reflexivity | exact IH]. Qed.

Lemma store_phase_run (env : Env) (target_srt_path : string)
      (results : list RecognitionResult) :
  delete_response env = Returns tt ->
  target_writable env = true ->
  result_response env = Returns results ->
  Forall has_alternative results ->
  store_phase env target_srt_path =
  (BlobDelete :: OpenTarget target_srt_path
     :: map WriteLine (segment (word_stream results)), Done tt).
Proof.
  intros Hdel Htgt Hres Hall. unfold store_phase, call.
  rewrite Hdel, Htgt, Hres. cbn [emit respond ret bind app].
  rewrite (store_lines_run _ Hall). reflexivity.
Qed.

(** When every collaborator answers and every result has an alternative,
    the call returns and the lines written are the segmentation of the
    words of the first alternatives. *)
Lemma transcribe_writes_segment (env : Env)
      (source_audio_path target_srt_path : string)
      (results : list RecognitionResult) :
  outcome (upload_phase env source_audio_path) = Done tt ->
  outcome (recognize_phase env source_audio_path) = Done tt ->
  delete_response env = Returns tt ->
  target_writable env = true ->
  result_response env = Returns results ->
  Forall has_alternative results ->
  outcome (transcribe env source_audio_path target_srt_path) = Done tt /\
  lines_written (trace (transcribe env source_audio_path target_srt_path)) =
    segment (word_stream results).
Proof.
  intros Hup Hrec Hdel Htgt Hres Hall.
  pose proof (store_phase_run env target_srt_path results Hdel Htgt Hres Hall)
    as Hstore.
  split.
  - rewrite (transcribe_outcome _ _ _ Hup Hrec), Hstore. reflexivity.
  - rewrite transcribe_trace, Hup, Hrec, Hstore. cbn [trace fst].
    destruct (upload_phase_done _ _ Hup) as (_ & _ & r0 & _ & _ & Ht).
    destruct (recognize_phase_done _ _ Hrec) as (frame_rate & _ & Hr).
    rewrite Ht, Hr, !lines_written_app, chunks_write_nothing,
      polls_write_nothing.
    cbn [lines_written app]. apply lines_written_write.
Qed.

End Success.

(** ** The scenarios of the specification *)

Example hello_world_foo_lines :
  segment Sample.hello_world_foo =
    [ {| sl_line := ["Hello"; "world"]; sl_index := 1;
         sl_start_time := 0; sl_end_time := 700 |};
      {| sl_line := ["foo"]; sl_index := 2;
         sl_start_time := 2000; sl_end_time := 2300 |} ].
Proof. reflexivity. Qed.

Example hello_world_foo_text :
  srt_text (trace (transcribe Sample.env_ok "talk.wav" "talk.srt")) =
    ("1" ++ newline ++ "00:00:00,000 --> 00:00:00,700" ++ newline ++
     "Hello world" ++ newline ++ newline ++
     "2" ++ newline ++ "00:00:02,000 --> 00:00:02,300" ++ newline ++
     "foo" ++ newline ++ newline)%string.
Proof. vm_compute. reflexivity. Qed.

Example thirteen_words_lines :
  map (fun sl => List.length (sl_line sl)) (segment Sample.thirteen_words) =
    [12%nat; 1%nat].
Proof. vm_compute. reflexivity. Qed.

Example gap_of_500_splits :
  List.length (segment (Sample.two_words 500)) = 2%nat /\
  List.length (segment (Sample.two_words 499)) = 1%nat.
Proof. split; vm_compute; reflexivity. Qed.

(** ** Lines written by a call that fails on the way *)

(** The sizes hold for whatever has been written, also when a result
    without alternative stops the loop. *)
Lemma store_results_sizes (results : list RecognitionResult) (st : LineState) :
  short_enough st ->
  Forall well_sized (lines_written (trace (store_results st results))) /\
  match outcome (store_results st results) with
  | Done st1 => short_enough st1
  | _ => True
  end.
Proof.
  revert st. induction results as [|res results IH]; intros st Hst.
  - split; [constructor | exact Hst].
  - cbn [store_results]. unfold first_alternative.
    destruct (alternatives res) as [|alt alts]; [split; [constructor | exact I]|].
    cbn [bind ret].
    destruct (segment_words_sizes (words alt) st Hst) as [Hout Hst1].
    destruct (segment_words st (words alt)) as [out st1]; cbn [fst snd] in *.
    rewrite write_lines_run. cbn [bind].
    destruct (IH st1 Hst1) as [Hls Ho].
    destruct (store_results st1 results) as [t o];
      cbn [trace outcome fst snd app] in *.
    rewrite lines_written_app, lines_written_write.
    split; [apply Forall_app; split; assumption | exact Ho].
Qed.

Lemma store_lines_sizes (results : list RecognitionResult) :
  Forall well_sized (lines_written (trace (store_lines results))).
Proof.
  unfold store_lines.
  assert (short_enough initial_state) as H0 by (unfold short_enough; simpl; lia).
  destruct (store_results_sizes results initial_state H0) as [Hls Ho].
  destruct (store_results initial_state results) as [t o];
    cbn [trace outcome fst snd] in *.
  destruct o as [st|e|]; cbn [bind]; rewrite ?write_lines_run;
    cbn [trace fst]; try exact Hls.
  rewrite lines_written_app, lines_written_write.
  apply Forall_app; split; [exact Hls|].
  unfold last_line. destruct (line st) eqn:E; constructor; [|constructor].
  unfold well_sized, short_enough in *. simpl. rewrite E in *. simpl in *. lia.
Qed.

(** ** Time codes written by the loop *)

Section WrittenTimes.

Lemma word_times_within_a_day (wd : WordInfo) :
  well_timed wd ->
  within_a_day (word_start_time wd) /\ within_a_day (word_end_time wd).
Proof.
  unfold well_timed, normalized, within_a_day, word_start_time, word_end_time.
  change (10 ^ 3) with 1000.
  intros [[Hs Hus] [He Hue]].
  assert (0 <= microseconds (start_time wd) / 1000 < 1000)
    by (split; [apply Z.div_pos | apply Z.div_lt_upper_bound]; lia).
  assert (0 <= microseconds (end_time wd) / 1000 < 1000)
    by (split; [apply Z.div_pos | apply Z.div_lt_upper_bound]; lia).
  lia.
Qed.

Lemma within_a_day_twelve (t : Z) :
  within_a_day t -> String.length (_format_time t) = 12%nat.
Proof.
  unfold within_a_day. intros Ht.
  rewrite format_time_fields by lia. reflexivity.
Qed.

Lemma segment_word_times (st : LineState) (wd : WordInfo) :
  well_timed wd -> times_within_a_day st ->
  Forall twelve_wide (fst (segment_word st wd)) /\
  times_within_a_day (snd (segment_word st wd)).
Proof.
  intros Hwd [Hs He]. destruct (word_times_within_a_day wd Hwd) as [Hws Hwe].
  unfold segment_word.
  destruct (starts_new_line st (word_start_time wd)); cbn [fst snd].
  - split; [|split; assumption].
    constructor; [|constructor].
    split; apply within_a_day_twelve; assumption.
  - split; [constructor | split; assumption].
Qed.

Lemma segment_words_times (ws : list WordInfo) (st : LineState) :
  Forall well_timed ws -> times_within_a_day st ->
  Forall twelve_wide (fst (segment_words st ws)) /\
  times_within_a_day (snd (segment_words st ws)).
Proof.
  revert st. induction ws as [|wd ws IH]; intros st Hall Hst; simpl.
  - split; [constructor | exact Hst].
  - inversion Hall as [|? ? Hwd Hrest]; subst.
    destruct (segment_word_times st wd Hwd Hst) as [H1 H2].
    destruct (segment_word st wd) as [out st1]; simpl in H1, H2.
    destruct (IH st1 Hrest H2) as [H3 H4].
    destruct (segment_words st1 ws) as [outs st2]; simpl in *.
    split; [apply Forall_app; split; assumption | exact H4].
Qed.

(** The times the loop formats come from the [seconds] and [microseconds]
    of a [timedelta], or are the initial 0: they stay below one day, and
    every time code written has twelve characters. *)
Lemma segment_time_codes (ws : list WordInfo) :
  Forall well_timed ws -> Forall twelve_wide (segment ws).
Proof.
  intros Hall. unfold segment, segment_from.
  assert (times_within_a_day initial_state) as H0
      by (unfold times_within_a_day, within_a_day; simpl; lia).
  destruct (segment_words_times ws initial_state Hall H0) as [H1 [Hs He]].
  destruct (segment_words initial_state ws) as [out st]; simpl in *.
  apply Forall_app; split; [exact H1|].
  unfold last_line. destruct (line st); constructor; [|constructor].
  split; apply within_a_day_twelve; assumption.
Qed.

End WrittenTimes.

(** * Further properties of the code *)

(** ** What the lines are made of *)

Section Lines.

Lemma sl_line_with_start (start : Z) (ls : list SubtitleLine) :
  map sl_line (with_start start ls) = map sl_line ls.
Proof. destruct ls; reflexivity. Qed.

Lemma sl_end_with_start (start : Z) (ls : list SubtitleLine) :
  map sl_end_time (with_start start ls) = map sl_end_time ls.
Proof. destruct ls; reflexivity. Qed.

Lemma sl_start_with_start (start : Z) (ls : list SubtitleLine) :
  tl (map sl_start_time (with_start start ls)) = tl (map sl_start_time ls).
Proof. destruct ls; reflexivity. Qed.

Lemma number_groups_fields (gs : list (list WordInfo)) (index : Z) :
  map sl_line (number_groups index gs) = map (map word) gs /\
  map sl_end_time (number_groups index gs) = map last_end gs /\
  map sl_start_time (number_groups index gs) = map first_start gs.
Proof.
  revert index. induction gs as [|g gs IH]; intros index; simpl.
  - repeat split.
  - destruct (IH (index + 1)) as (H1 & H2 & H3). now rewrite H1, H2, H3.
Qed.

Lemma segment_lines_of_groups (ws : list WordInfo) :
  map sl_line (segment ws) = map (map word) (groups ws).
Proof.
  rewrite segment_groups, sl_line_with_start.
  apply number_groups_fields.
Qed.

Lemma groups_concat (ws : list WordInfo) : List.concat (groups ws) = ws.
Proof. unfold groups. now rewrite group_words_concat. Qed.

(** X1.  The lines hold the words of the stream, all of them, once each and
    in order: put end to end they give back the texts of the words. *)
Theorem words_preserved :
  forall ws : list WordInfo,
    List.concat (map sl_line (segment ws)) = map word ws.
Proof.
  intros ws.
  rewrite segment_lines_of_groups, <- concat_map, groups_concat. reflexivity.
Qed.

Lemma words_preserved_length (ws : list WordInfo) :
  List.length (List.concat (map sl_line (segment ws))) = List.length ws.
Proof.
  rewrite segment_lines_of_groups, <- concat_map, groups_concat.
  apply length_map.
Qed.

Lemma sized_lines_count (ls : list SubtitleLine) :
  Forall well_sized ls ->
  (List.length ls <= List.length (List.concat (map sl_line ls))
   <= 12 * List.length ls)%nat.
Proof.
  induction 1 as [|l ls Hl _ IH]; simpl; [lia|].
  unfold well_sized in Hl. rewrite length_app. lia.
Qed.

(** X2.  A stream of [n] words gives at most [n] lines and at least
    [n / 12]: no line is empty and none holds more than twelve words. *)
Theorem line_count_bounds :
  forall ws : list WordInfo,
    (List.length (segment ws) <= List.length ws
     <= 12 * List.length (segment ws))%nat.
Proof.
  intros ws. pose proof (sized_lines_count _ (segment_sizes ws)) as H.
  rewrite words_preserved_length in H. exact H.
Qed.

End Lines.

(** ** The lines and the times of their words *)

Section LineTimes.

(** X3.  The lines cut the stream into groups of consecutive words: a line
    holds the texts of its group, it ends when the last word of the group
    ends, and every line after the first starts when the first word of its
    group starts. *)
Theorem line_times_of_words :
  forall ws : list WordInfo,
    exists gs : list (list WordInfo),
      List.concat gs = ws /\
      map sl_line (segment ws) = map (map word) gs /\
      map sl_end_time (segment ws) = map last_end gs /\
      tl (map sl_start_time (segment ws)) = tl (map first_start gs).
Proof.
  intros ws. exists (groups ws).
  destruct (number_groups_fields (groups ws) 1) as (H1 & H2 & H3).
  split; [apply groups_concat|].
  split; [apply segment_lines_of_groups|].
  rewrite segment_groups, sl_end_with_start, sl_start_with_start, H2, H3.
  split; reflexivity.
Qed.

Lemma close_knit_snoc (cur : list WordInfo) (wd : WordInfo) :
  close_knit cur ->
  (cur <> [] -> word_start_time wd - last_end cur < _LINE_INTERVAL) ->
  close_knit (cur ++ [wd]).
Proof.
  induction cur as [|a cur IH]; intros Hk Hgap; [exact I|].
  destruct cur as [|b cur].
  - simpl. split; [|exact I]. apply Hgap. discriminate.
  - destruct Hk as [Hab Hk]. change ((a :: b :: cur) ++ [wd])
      with (a :: (b :: (cur ++ [wd]))).
    split; [exact Hab|]. apply (IH Hk). intros _. apply Hgap. discriminate.
Qed.

(** When the condition of line 105 is false on a non-empty accumulator, the
    word is less than [_LINE_INTERVAL] after the end of the line. *)
Lemma no_split_small_gap (st : LineState) (start : Z) :
  starts_new_line st start = false -> line st <> [] ->
  start - line_end_time st < _LINE_INTERVAL.
Proof.
  intros Hno Hne. unfold _LINE_INTERVAL.
  destruct (Z_lt_ge_dec (start - line_end_time st) 500) as [Hlt|Hge];
    [exact Hlt|].
  rewrite (proj2 (starts_new_line_iff st start)) in Hno; [discriminate|].
  right. split; assumption.
Qed.

Lemma group_words_close_knit (ws cur : list WordInfo) (st : LineState) :
  tracks cur st -> close_knit cur ->
  Forall close_knit (group_words cur st ws).
Proof.
  revert cur st. induction ws as [|wd ws IH]; intros cur st [Hl He] Hk.
  - simpl. destruct cur; constructor; [exact Hk | constructor].
  - cbn [group_words].
    destruct (starts_new_line st (word_start_time wd)) eqn:E.
    + constructor; [exact Hk|].
      apply IH; [apply (tracks_append [] _ wd); reflexivity | exact I].
    + apply IH; [apply tracks_append; exact Hl|].
      apply close_knit_snoc; [exact Hk|]. intros Hc.
      rewrite <- (He Hc). apply no_split_small_gap; [exact E|].
      rewrite Hl. destruct cur; [congruence | discriminate].
Qed.

(** X4.  Inside a line no word starts 500 ms or more after the word before
    it has ended. *)
Theorem words_of_a_line_close :
  forall ws : list WordInfo,
    exists gs : list (list WordInfo),
      List.concat gs = ws /\
      map sl_line (segment ws) = map (map word) gs /\
      Forall close_knit gs.
Proof.
  intros ws. exists (groups ws).
  split; [apply groups_concat|]. split; [apply segment_lines_of_groups|].
  apply group_words_close_knit; [|exact I].
  split; [reflexivity | congruence].
Qed.

Lemma group_words_splits (ws cur : list WordInfo) (st : LineState) :
  tracks cur st -> splits_justified (group_words cur st ws).
Proof.
  revert cur st. induction ws as [|wd ws IH]; intros cur st [Hl He].
  - simpl. destruct cur; exact I.
  - cbn [group_words].
    destruct (starts_new_line st (word_start_time wd)) eqn:E.
    + assert (tracks [wd] (append_word (begin_line st (word_start_time wd)) wd))
        as Ht by (apply (tracks_append [] _ wd); reflexivity).
      specialize (IH [wd] _ Ht).
      destruct (group_words_head ws [wd]
                  (append_word (begin_line st (word_start_time wd)) wd))
        as (more & gs & G); [discriminate|].
      rewrite G in *. split; [|exact IH].
      assert (cur <> []) as Hc.
      { apply starts_new_line_nonempty in E. rewrite Hl in E.
        destruct cur; [exfalso; apply E; reflexivity | discriminate]. }
      apply starts_new_line_iff in E.
      unfold _MAX_NUM_WORDS_IN_LINE, _LINE_INTERVAL.
      rewrite Hl, length_map, (He Hc) in E.
      destruct E as [E | [_ E]]; [left; lia | right; exact E].
    + apply IH. apply tracks_append. exact Hl.
Qed.

(** X5.  A line is not ended without need: between two lines in a row,
    the first holds 12 words or the second starts 500 ms or more after the
    first has ended. *)
Theorem no_needless_split :
  forall ws : list WordInfo,
    exists gs : list (list WordInfo),
      List.concat gs = ws /\
      map sl_line (segment ws) = map (map word) gs /\
      splits_justified gs.
Proof.
  intros ws. exists (groups ws).
  split; [apply groups_concat|]. split; [apply segment_lines_of_groups|].
  apply group_words_splits. split; [reflexivity | congruence].
Qed.

Lemma segment_from_chronological (ws : list WordInfo) (st : LineState) (t : Z) :
  t <= line_start_time st <= line_end_time st ->
  chronological_from (line_end_time st) ws ->
  lines_from t (segment_from st ws).
Proof.
  revert st t. induction ws as [|wd ws IH]; intros st t Hst Hws.
  - unfold segment_from, last_line; simpl.
    destruct (line st); simpl; [exact I | split; [exact Hst | exact I]].
  - destruct Hws as [Hwd Hrest]. rewrite segment_from_cons.
    unfold segment_word.
    destruct (starts_new_line st (word_start_time wd)); cbn [fst snd app].
    + split; [exact Hst|]. apply IH; simpl; [lia | exact Hrest].
    + apply IH; simpl; [lia | exact Hrest].
Qed.

(** X6.  When the words come in chronological order from 0 on (none ends
    before it starts, none starts before the one before it has ended), so do
    the lines: each starts no later than it ends, and no earlier than the
    line before it has ended. *)
Theorem chronological_lines :
  forall ws : list WordInfo,
    chronological_from 0 ws -> lines_from 0 (segment ws).
Proof.
  intros ws Hws. apply segment_from_chronological; [simpl; lia | exact Hws].
Qed.

Lemma chronological_lines_witness :
  lines_from 0 (segment Sample.hello_world_foo).
Proof.
  apply (chronological_lines Sample.hello_world_foo).
  vm_compute. repeat split; discriminate.
Defined.

End LineTimes.

(** ** The loop over the results *)

Section Results.

(** X7.  Only the words of the first alternatives count, in the order they
    come: two lists of results, each with an alternative in every result,
    that carry the same words give the same lines, however the words are
    spread over the results. *)
Theorem result_boundaries_do_not_matter :
  forall results1 results2 : list RecognitionResult,
    Forall has_alternative results1 ->
    Forall has_alternative results2 ->
    word_stream results1 = word_stream results2 ->
    store_lines results1 = store_lines results2.
Proof.
  intros r1 r2 H1 H2 E.
  now rewrite (store_lines_run _ H1), (store_lines_run _ H2), E.
Qed.

Lemma result_boundaries_do_not_matter_witness :
  store_lines (Sample.one_result Sample.hello_world_foo) =
  store_lines
    [ {| alternatives := [ {| words := [Sample.spoken "Hello" 0 300] |};
                           {| words := [Sample.spoken "Hullo" 0 300] |} ] |};
      {| alternatives := [ {| words := [Sample.spoken "world" 350 700;
                                        Sample.spoken "foo" 2000 2300] |} ] |} ].
Proof.
  apply result_boundaries_do_not_matter.
  - repeat constructor; discriminate.
  - repeat constructor; discriminate.
  - reflexivity.
Defined.

Lemma store_results_stops (pre post : list RecognitionResult)
      (res : RecognitionResult) (st : LineState) :
  Forall has_alternative pre ->
  alternatives res = [] ->
  store_results st (pre ++ res :: post) =
  (map WriteLine (fst (segment_words st (word_stream pre))), Raised IndexError).
Proof.
  revert st. induction pre as [|r pre IH]; intros st Hall Hres.
  - cbn [app store_results]. unfold first_alternative. rewrite Hres. reflexivity.
  - inversion Hall as [|? ? Hr Hpre]; subst.
    unfold word_stream in *. cbn [app store_results flat_map].
    unfold first_alternative, has_alternative in *.
    destruct (alternatives r) as [|alt alts]; [congruence|].
    cbn [bind ret]. rewrite segment_words_app.
    destruct (segment_words st (words alt)) as [out st1]; cbn [fst snd].
    rewrite write_lines_run; cbn [bind].
    rewrite (IH st1 Hpre Hres). simpl. now rewrite map_app.
Qed.

(** X8.  A result without alternative stops the loop with an [IndexError].
    The lines completed by the words before it have been written; the words
    still in the accumulator are not written, and nothing of the results
    after it is read. *)
Theorem result_without_alternative :
  forall (pre post : list RecognitionResult) (res : RecognitionResult),
    Forall has_alternative pre ->
    alternatives res = [] ->
    store_lines (pre ++ res :: post) =
    (map WriteLine (lines_after (word_stream pre)), Raised IndexError).
Proof.
  intros pre post res Hall Hres. unfold store_lines.
  rewrite (store_results_stops pre post res initial_state Hall Hres).
  reflexivity.
Qed.

Lemma result_without_alternative_witness :
  store_lines (Sample.one_result Sample.hello_world_foo
               ++ {| alternatives := [] |} :: []) =
  ([ WriteLine {| sl_line := ["Hello"; "world"]; sl_index := 1;
                  sl_start_time := 0; sl_end_time := 700 |} ],
   Raised IndexError).
Proof.
  apply (result_without_alternative
           (Sample.one_result Sample.hello_world_foo) []
           {| alternatives := [] |}).
  - repeat constructor; discriminate.
  - reflexivity.
Defined.

End Results.

(** ** Calls that fail during the upload *)

Section UploadFailures.

Lemma upload_loop_raises (chunks : list Resumable) (resumable : Resumable)
      (e : Exn) (rest : list (Response Resumable)) :
  finished resumable = false ->
  Forall goes_on chunks ->
  upload_loop resumable (map Returns chunks ++ Raises e :: rest) =
  (flat_map chunk_events chunks ++ [TransmitNextChunk], Raised e).
Proof.
  revert resumable. induction chunks as [|r chunks IH]; intros resumable Hf Hall.
  - cbn [map app upload_loop]. rewrite Hf. reflexivity.
  - inversion Hall as [|? ? [Hfr Htr] Hrest]; subst.
    cbn [map app]. rewrite (upload_loop_step _ _ _ Hf Htr).
    rewrite (IH r Hfr Hrest). cbn [trace outcome fst snd flat_map].
    now rewrite app_assoc.
Qed.

Lemma upload_loop_divides_by_zero (chunks : list Resumable)
      (resumable r0 : Resumable) (rest : list (Response Resumable)) :
  finished resumable = false ->
  Forall goes_on chunks ->
  total_bytes r0 = 0 ->
  upload_loop resumable (map Returns chunks ++ Returns r0 :: rest) =
  (flat_map chunk_events chunks ++ [TransmitNextChunk],
   Raised ZeroDivisionError).
Proof.
  revert resumable. induction chunks as [|r chunks IH];
    intros resumable Hf Hall Hz.
  - cbn [map app upload_loop]. rewrite Hf. run_calls.
    rewrite truediv_run, Hz. reflexivity.
  - inversion Hall as [|? ? [Hfr Htr] Hrest]; subst.
    cbn [map app]. rewrite (upload_loop_step _ _ _ Hf Htr).
    rewrite (IH r Hfr Hrest Hz). cbn [trace outcome fst snd flat_map].
    now rewrite app_assoc.
Qed.

(** The call, when the upload loop is entered and ends with an exception. *)
Lemma transcribe_upload_raises (env : Env)
      (source_audio_path target_srt_path : string)
      (resumable : Resumable) (t : list Event) (e : Exn) :
  started env = true ->
  source_exists env = true ->
  initiate_response env = Returns resumable ->
  upload_loop resumable (transmit_responses env) = (t, Raised e) ->
  transcribe env source_audio_path target_srt_path =
  ([Initiate (basename source_audio_path); Progress "upload" 0%Q] ++ t,
   Raised e).
Proof.
  intros Hs He Hi Hloop. unfold transcribe, upload_phase.
  rewrite Hs, He, Hi. run_calls. rewrite Hloop. reflexivity.
Qed.

(** X9.  When the transmission of a chunk raises, the call raises the same
    exception at once: the chunks before it have been transmitted and
    reported, none is transmitted after it, the closing [(upload, 1)] is
    not reported, and neither the recognition nor the deletion of the blob
    is requested. *)
Theorem chunk_failure_aborts :
  forall (env : Env) (source_audio_path target_srt_path : string)
         (resumable : Resumable) (chunks : list Resumable) (e : Exn)
         (rest : list (Response Resumable)),
    started env = true ->
    source_exists env = true ->
    initiate_response env = Returns resumable ->
    finished resumable = false ->
    Forall goes_on chunks ->
    transmit_responses env = map Returns chunks ++ Raises e :: rest ->
    transcribe env source_audio_path target_srt_path =
    ([Initiate (basename source_audio_path); Progress "upload" 0%Q]
     ++ flat_map chunk_events chunks ++ [TransmitNextChunk],
     Raised e).
Proof.
  intros env src tgt resumable chunks e rest Hs He Hi Hf Hall Hscript.
  apply (transcribe_upload_raises env src tgt resumable _ e Hs He Hi).
  rewrite Hscript. apply upload_loop_raises; assumption.
Qed.

(** X10.  The fraction is computed by a division that nothing guards: when
    the transport reports a total of zero bytes after a chunk, the call
    raises [ZeroDivisionError] right after that transmission, without
    reporting it. *)
Theorem zero_total_divides_by_zero :
  forall (env : Env) (source_audio_path target_srt_path : string)
         (resumable r0 : Resumable) (chunks : list Resumable)
         (rest : list (Response Resumable)),
    started env = true ->
    source_exists env = true ->
    initiate_response env = Returns resumable ->
    finished resumable = false ->
    Forall goes_on chunks ->
    total_bytes r0 = 0 ->
    transmit_responses env = map Returns chunks ++ Returns r0 :: rest ->
    transcribe env source_audio_path target_srt_path =
    ([Initiate (basename source_audio_path); Progress "upload" 0%Q]
     ++ flat_map chunk_events chunks ++ [TransmitNextChunk],
     Raised ZeroDivisionError).
Proof.
  intros env src tgt resumable r0 chunks rest Hs He Hi Hf Hall Hz Hscript.
  apply (transcribe_upload_raises env src tgt resumable _ _ Hs He Hi).
  rewrite Hscript. apply upload_loop_divides_by_zero; assumption.
Qed.

End UploadFailures.

Lemma chunk_failure_aborts_witness :
  transcribe Faulty.env_broken_pipe "talk.wav" "talk.srt" =
  ([ Initiate "talk.wav"; Progress "upload" 0%Q;
     TransmitNextChunk; Progress "upload" (inject_Z 5 / inject_Z 10)%Q;
     TransmitNextChunk ],
   Raised (TransportError "broken pipe")).
Proof.
  apply (chunk_failure_aborts Faulty.env_broken_pipe "talk.wav" "talk.srt"
           {| finished := false; bytes_uploaded := 0; total_bytes := 10 |}
           [Faulty.half_way] (TransportError "broken pipe") []);
    try reflexivity.
  repeat constructor. simpl. lia.
Defined.

Lemma zero_total_divides_by_zero_witness :
  transcribe Faulty.env_empty_file "empty.wav" "empty.srt" =
  ([ Initiate "empty.wav"; Progress "upload" 0%Q; TransmitNextChunk ],
   Raised ZeroDivisionError).
Proof.
  apply (zero_total_divides_by_zero Faulty.env_empty_file "empty.wav" "empty.srt"
           {| finished := false; bytes_uploaded := 0; total_bytes := 0 |}
           {| finished := true; bytes_uploaded := 0; total_bytes := 0 |}
           [] []);
    try reflexivity.
  constructor.
Defined.

(** ** The blob *)

Section Blob.

Lemma upload_loop_no_delete (script : list (Response Resumable))
      (resumable : Resumable) :
  filter is_blob_delete (trace (upload_loop resumable script)) = [].
Proof.
  revert resumable. induction script as [|resp rest IH]; intros resumable.
  - cbn [upload_loop]. destruct (finished resumable); reflexivity.
  - destruct (finished resumable) eqn:Hf.
    + cbn [upload_loop]. rewrite Hf. reflexivity.
    + destruct resp as [r|e].
      * destruct (Z.eq_dec (total_bytes r) 0) as [Hz|Hz].
        -- cbn [upload_loop]. rewrite Hf. run_calls.
           rewrite truediv_run, Hz. reflexivity.
        -- rewrite (upload_loop_step _ _ _ Hf Hz). cbn [trace fst].
           rewrite filter_app, IH. reflexivity.
      * cbn [upload_loop]. rewrite Hf. reflexivity.
Qed.

Lemma upload_phase_no_delete (env : Env) (source_audio_path : string) :
  filter is_blob_delete (trace (upload_phase env source_audio_path)) = [].
Proof.
  unfold upload_phase.
  destruct (started env); [|reflexivity].
  destruct (source_exists env); [|reflexivity].
  destruct (initiate_response env) as [r0|e]; [|reflexivity].
  run_calls.
  pose proof (upload_loop_no_delete (transmit_responses env) r0) as Hloop.
  destruct (upload_loop r0 (transmit_responses env)) as [t o].
  cbn [trace fst] in Hloop.
  destruct o as [[]|e|]; cbn [bind emit trace fst app filter is_blob_delete];
    try exact Hloop.
  now rewrite filter_app, Hloop.
Qed.

Lemma poll_loop_no_delete (script : list PollResponse) :
  filter is_blob_delete (trace (poll_loop script)) = [].
Proof.
  induction script as [|resp rest IH]; [reflexivity|].
  destruct resp as [p|]; [|reflexivity].
  rewrite poll_loop_pending. cbn [trace fst]. now rewrite filter_app, IH.
Qed.

Lemma recognize_phase_no_delete (env : Env) (source_audio_path : string) :
  filter is_blob_delete (trace (recognize_phase env source_audio_path)) = [].
Proof.
  unfold recognize_phase.
  destruct (wave_framerate env) as [frame_rate|e]; [|reflexivity].
  destruct (recognize_response env) as [[]|e]; [|reflexivity].
  run_calls.
  pose proof (poll_loop_no_delete (poll_responses env)) as Hloop.
  destruct (poll_loop (poll_responses env)) as [t o]. exact Hloop.
Qed.

Lemma writes_no_delete (ls : list SubtitleLine) :
  filter is_blob_delete (map WriteLine ls) = [].
Proof. induction ls as [|l ls IH]; [reflexivity | exact IH]. Qed.

Lemma store_phase_one_delete (env : Env) (target_srt_path : string) :
  filter is_blob_delete (trace (store_phase env target_srt_path)) = [BlobDelete].
Proof.
  unfold store_phase, call.
  destruct (delete_response env) as [[]|e]; [|reflexivity].
  cbn [ret emit respond bind app].
  destruct (target_writable env); [|reflexivity].
  cbn [emit bind app].
  destruct (result_response env) as [results|e]; [|reflexivity].
  cbn [respond ret bind app].
  destruct (store_lines_writes results) as [ls Hls].
  destruct (store_lines results) as [t o]. cbn [trace fst] in *. subst t.
  cbn [filter is_blob_delete]. now rewrite writes_no_delete.
Qed.

(** X11.  [blob.delete()] is called once, when both loops have ended
    normally, whatever happens afterwards; it is not called at all when the
    upload or the polling has not ended normally. *)
Theorem blob_deleted_iff_polling_completed :
  forall (env : Env) (source_audio_path target_srt_path : string),
    filter is_blob_delete
           (trace (transcribe env source_audio_path target_srt_path)) =
    if polling_completed env source_audio_path then [BlobDelete] else [].
Proof.
  intros env src tgt. unfold polling_completed.
  rewrite transcribe_trace, filter_app, upload_phase_no_delete.
  destruct (outcome (upload_phase env src)); [|reflexivity ..].
  rewrite filter_app, recognize_phase_no_delete.
  destruct (outcome (recognize_phase env src)); [|reflexivity ..].
  apply store_phase_one_delete.
Qed.

(** X12.  The WAV header is read after the upload.  When [wave.open] raises
    on an uploaded file, the call raises the same exception; the whole
    upload has taken place by then, the recognition is never requested, and
    the blob is not deleted. *)
Theorem wave_error_after_upload :
  forall (env : Env) (source_audio_path target_srt_path : string) (e : Exn),
    outcome (upload_phase env source_audio_path) = Done tt ->
    wave_framerate env = Raises e ->
    transcribe env source_audio_path target_srt_path =
      (trace (upload_phase env source_audio_path), Raised e) /\
    (exists t,
        trace (upload_phase env source_audio_path) =
        t ++ [Progress "upload" 1%Q]) /\
    filter is_blob_delete
           (trace (transcribe env source_audio_path target_srt_path)) = [].
Proof.
  intros env src tgt e Hup Hwave.
  assert (recognize_phase env src = ([], Raised e)) as Hrec
      by (unfold recognize_phase; rewrite Hwave; reflexivity).
  assert (transcribe env src tgt = (trace (upload_phase env src), Raised e))
    as Hrun.
  { apply injective_projections.
    - change (fst ?m) with (trace m) at 1.
      rewrite transcribe_trace, Hup, Hrec. cbn [trace outcome fst snd app].
      now rewrite app_nil_r.
    - change (snd ?m) with (outcome m) at 1.
      unfold transcribe. now rewrite outcome_bind, Hup, outcome_bind, Hrec. }
  split; [exact Hrun|]. split.
  - destruct (upload_phase_done _ _ Hup) as (_ & _ & r0 & _ & _ & Ht).
    rewrite Ht, app_assoc. eexists. reflexivity.
  - rewrite Hrun. apply upload_phase_no_delete.
Qed.

Lemma wave_error_after_upload_witness :
  transcribe Faulty.env_not_wave "talk.mp3" "talk.srt" =
  ([ Initiate "talk.mp3"; Progress "upload" 0%Q; TransmitNextChunk;
     Progress "upload" (inject_Z 10 / inject_Z 10)%Q; Progress "upload" 1%Q ],
   Raised WaveError).
Proof.
  exact (proj1 (wave_error_after_upload Faulty.env_not_wave
                  "talk.mp3" "talk.srt" WaveError eq_refl eq_refl)).
Defined.

End Blob.

(** ** Polling *)

Section Polling.

Lemma polls_counted (percents : list Z) :
  filter is_poll (flat_map poll_events percents) =
    repeat OperationDone (List.length percents) /\
  filter is_sleep (flat_map poll_events percents) =
    repeat (Sleep _PROGRESS_INTERVAL) (List.length percents).
Proof.
  induction percents as [|p percents [IH1 IH2]]; [split; reflexivity|].
  cbn [flat_map List.length repeat]. rewrite !filter_app, IH1, IH2.
  split; reflexivity.
Qed.

(** X13.  A polling that ends normally after finding the operation running
    [n] times has asked [n + 1] times whether it was done, has called the
    callback [n] times and has slept [n] times, one second each time: there
    is no sleep before the first poll nor after the last. *)
Theorem polls_and_sleeps :
  forall (env : Env) (source_audio_path : string),
    outcome (recognize_phase env source_audio_path) = Done tt ->
    let t := trace (recognize_phase env source_audio_path) in
    let n := List.length (pending_percents (poll_responses env)) in
    filter is_poll t = repeat OperationDone (S n) /\
    filter is_sleep t = repeat (Sleep 1) n /\
    List.length (fractions_of "transcribe" t) = n /\
    (exists before, t = before ++ [OperationDone]).
Proof.
  intros env src Hrec t n. subst t n.
  destruct (recognize_phase_done _ _ Hrec) as (frame_rate & _ & Hr).
  rewrite Hr.
  destruct (polls_counted (pending_percents (poll_responses env))) as [Hp Hs].
  repeat split.
  - cbn [app filter is_poll]. rewrite filter_app, Hp. cbn [filter is_poll].
    rewrite <- repeat_cons. reflexivity.
  - cbn [app filter is_sleep]. rewrite filter_app, Hs. cbn [filter is_sleep].
    now rewrite app_nil_r.
  - cbn [app fractions_of]. cbn [String.eqb Ascii.eqb Bool.eqb].
    rewrite fractions_of_app, polls_transcribe. cbn [fractions_of].
    now rewrite app_nil_r, length_map.
  - rewrite app_assoc. eexists. reflexivity.
Qed.

Lemma polls_and_sleeps_witness :
  filter is_poll (trace (recognize_phase Sample.env_ok "talk.wav")) =
    [OperationDone; OperationDone] /\
  filter is_sleep (trace (recognize_phase Sample.env_ok "talk.wav")) =
    [Sleep 1].
Proof.
  pose proof (polls_and_sleeps Sample.env_ok "talk.wav" eq_refl)
    as (Hp & Hs & _).
  split; [exact Hp | exact Hs].
Defined.

End Polling.

(** ** A call that goes through *)

(** X14.  When both loops end normally, the blob is deleted, the target is
    opened, the result holds an alternative in every result and nothing
    raises, the call returns; it has then, in this order, uploaded, polled,
    deleted the blob, opened the target and written the lines of the words
    of the first alternatives, and the text of the target is made of the
    blocks of these lines. *)
Theorem successful_call :
  forall (env : Env) (source_audio_path target_srt_path : string)
         (results : list RecognitionResult),
    outcome (upload_phase env source_audio_path) = Done tt ->
    outcome (recognize_phase env source_audio_path) = Done tt ->
    delete_response env = Returns tt ->
    target_writable env = true ->
    result_response env = Returns results ->
    Forall has_alternative results ->
    let run := transcribe env source_audio_path target_srt_path in
    outcome run = Done tt /\
    trace run =
      trace (upload_phase env source_audio_path)
      ++ trace (recognize_phase env source_audio_path)
      ++ BlobDelete :: OpenTarget target_srt_path
         :: map WriteLine (segment (word_stream results)) /\
    srt_text (trace run) =
      String.concat "" (flat_map _write_line (segment (word_stream results))).
Proof.
  intros env src tgt results Hup Hrec Hdel Htgt Hres Hall run. subst run.
  destruct (transcribe_writes_segment env src tgt results
              Hup Hrec Hdel Htgt Hres Hall) as [Hout Hlines].
  split; [exact Hout|]. split.
  - rewrite transcribe_trace, Hup, Hrec.
    now rewrite (store_phase_run env tgt results Hdel Htgt Hres Hall).
  - unfold srt_text. now rewrite Hlines.
Qed.

Lemma successful_call_witness :
  outcome (transcribe Sample.env_ok "talk.wav" "talk.srt") = Done tt /\
  lines_written (trace (transcribe Sample.env_ok "talk.wav" "talk.srt")) =
    segment Sample.hello_world_foo.
Proof.
  pose proof (successful_call Sample.env_ok "talk.wav" "talk.srt"
                (Sample.one_result Sample.hello_world_foo)
                eq_refl eq_refl eq_refl eq_refl eq_refl
                ltac:(repeat constructor; discriminate)) as (Ho & Ht & _).
  split; [exact Ho | rewrite Ht; reflexivity].
Defined.

(** ** [start] and the globals *)

Section Start.

Variable w : Credentials.

Lemma start_bucket (credential_path : string) (g : Globals) :
  bucket_bound (fst (start w credential_path g)) =
  bucket_bound g || accepts w credential_path.
Proof.
  unfold start, accepts.
  destruct (path_exists w credential_path); cbn [negb andb];
    [|now rewrite orb_false_r].
  destruct (speech_from_json w credential_path); cbn [fst];
    [now rewrite orb_false_r|].
  destruct (storage_from_json w credential_path); cbn [fst andb].
  - unfold bucket_bound; simpl. now rewrite orb_false_r.
  - now rewrite orb_true_r.
Qed.

Lemma start_all_bound (credential_path : string) (g : Globals) :
  all_bound g -> all_bound (fst (start w credential_path g)).
Proof.
  unfold start, all_bound.
  destruct (path_exists w credential_path); cbn [negb]; [|tauto].
  destruct (speech_from_json w credential_path); cbn [fst]; [tauto|].
  destruct (storage_from_json w credential_path); cbn [fst].
  - unfold bucket_bound; simpl. intros Hg Hb.
    destruct (Hg Hb) as (H1 & H2 & _). repeat split; [exact H1 | exact H2|].
    discriminate.
  - intros _ _. simpl. repeat split; discriminate.
Qed.

Lemma starts_bucket (paths : list string) (g : Globals) :
  bucket_bound (starts w paths g) =
  bucket_bound g || existsb (accepts w) paths.
Proof.
  revert g. induction paths as [|p paths IH]; intros g; simpl.
  - now rewrite orb_false_r.
  - now rewrite IH, start_bucket, orb_assoc.
Qed.

Lemma starts_all_bound (paths : list string) (g : Globals) :
  all_bound g -> all_bound (starts w paths g).
Proof.
  revert g. induction paths as [|p paths IH]; intros g Hg; simpl; [exact Hg|].
  apply IH. apply start_all_bound. exact Hg.
Qed.

End Start.

(** X15.  After any series of calls of [start] on the freshly imported
    module, whatever each of them raised, [_storage_bucket] is bound exactly
    when one of the calls found its credential and built both clients; and
    when it is bound it is the bucket of [_BUCKET_NAME] and the two clients
    are bound too: a call that fails never unbinds anything. *)
Theorem globals_after_starts :
  forall (w : Credentials) (paths : list string),
    let g := starts w paths unbound in
    bucket_bound g = existsb (accepts w) paths /\
    (bucket_bound g = true ->
     _storage_bucket g = Some _BUCKET_NAME /\
     _storage_client g <> None /\
     _speech_client g <> None).
Proof.
  intros w paths g. subst g. split.
  - now rewrite starts_bucket.
  - apply starts_all_bound. unfold all_bound, bucket_bound; simpl. discriminate.
Qed.

(** X16.  As long as no call of [start] has gone through, [transcribe]
    raises [NameError] before it does anything else: the source file is not
    opened, nothing is requested and the callback is not called, whether the
    source exists or not. *)
Theorem transcribe_before_start :
  forall (w : Credentials) (paths : list string) (env : Env)
         (source_audio_path target_srt_path : string),
    existsb (accepts w) paths = false ->
    transcribe (in_module (starts w paths unbound) env)
               source_audio_path target_srt_path =
    ([], Raised NameError).
Proof.
  intros w paths env src tgt Hnone.
  unfold transcribe, upload_phase. cbn [started in_module].
  rewrite starts_bucket, Hnone. reflexivity.
Qed.

Lemma transcribe_before_start_witness :
  start Faulty.one_credential "lost.json" unbound =
    (unbound,
     Some (CredentialNotFound "Credential does not exist: 'lost.json'")) /\
  transcribe (in_module (starts Faulty.one_credential ["lost.json"] unbound)
                        Sample.env_ok) "talk.wav" "talk.srt" =
    ([], Raised NameError).
Proof.
  split; [reflexivity|].
  apply (transcribe_before_start Faulty.one_credential ["lost.json"]).
  reflexivity.
Defined.

(** ** Time codes tell times apart *)

Section TimeCodesApart.

Lemma digit_injective (a b : Z) :
  0 <= a <= 9 -> 0 <= b <= 9 -> PyFormat.digit a = PyFormat.digit b -> a = b.
Proof.
  unfold PyFormat.digit. intros Ha Hb E.
  apply (f_equal nat_of_ascii) in E.
  rewrite !nat_ascii_embedding in E by lia. lia.
Qed.

Lemma two_digits_injective (a b : Z) :
  0 <= a < 100 -> 0 <= b < 100 -> two_digits a = two_digits b -> a = b.
Proof.
  unfold two_digits. intros Ha Hb E. injection E as E1 E2.
  apply digit_injective in E1; [|Z.div_mod_to_equations; lia ..].
  apply digit_injective in E2; [|Z.div_mod_to_equations; lia ..].
  Z.div_mod_to_equations; lia.
Qed.

Lemma three_digits_injective (a b : Z) :
  0 <= a < 1000 -> 0 <= b < 1000 -> three_digits a = three_digits b -> a = b.
Proof.
  unfold three_digits. intros Ha Hb E. injection E as E1 E2 E3.
  apply digit_injective in E1; [|Z.div_mod_to_equations; lia ..].
  apply digit_injective in E2; [|Z.div_mod_to_equations; lia ..].
  apply digit_injective in E3; [|Z.div_mod_to_equations; lia ..].
  Z.div_mod_to_equations; lia.
Qed.

Lemma fields_determine_time (a b : Z) :
  0 <= a -> 0 <= b ->
  a / 3600000 = b / 3600000 ->
  a / 60000 mod 60 = b / 60000 mod 60 ->
  a / 1000 mod 60 = b / 1000 mod 60 ->
  a mod 1000 = b mod 1000 ->
  a = b.
Proof.
  intros Ha Hb Hh Hm Hs Hu.
  replace (a / 3600000) with (a / 1000 / 60 / 60) in Hh
    by (rewrite !Z.div_div by lia; reflexivity).
  replace (b / 3600000) with (b / 1000 / 60 / 60) in Hh
    by (rewrite !Z.div_div by lia; reflexivity).
  replace (a / 60000) with (a / 1000 / 60) in Hm
    by (rewrite Z.div_div by lia; reflexivity).
  replace (b / 60000) with (b / 1000 / 60) in Hm
    by (rewrite Z.div_div by lia; reflexivity).
  Z.div_mod_to_equations. lia.
Qed.

Lemma format_time_determines (a b : Z) :
  0 <= a < 360000000 -> 0 <= b < 360000000 ->
  _format_time a = _format_time b -> a = b.
Proof.
  intros Ha Hb E.
  rewrite (format_time_fields a Ha), (format_time_fields b Hb) in E.
  assert (forall x, 0 <= x < 360000000 -> 0 <= x / 3600000 < 100) as Hh
      by (intros; Z.div_mod_to_equations; lia).
  assert (forall x, 0 <= x mod 60 < 100) as H60
      by (intros; Z.div_mod_to_equations; lia).
  assert (forall x, 0 <= x mod 1000 < 1000) as H1000
      by (intros; Z.div_mod_to_equations; lia).
  unfold two_digits, three_digits in E. cbn [append] in E.
  injection E as D1 D2 D3 D4 D5 D6 D7 D8 D9.
  assert (two_digits (a / 3600000) = two_digits (b / 3600000)) as Eh
      by (unfold two_digits; now rewrite D1, D2).
  assert (two_digits (a / 60000 mod 60) = two_digits (b / 60000 mod 60)) as Em
      by (unfold two_digits; now rewrite D3, D4).
  assert (two_digits (a / 1000 mod 60) = two_digits (b / 1000 mod 60)) as Es
      by (unfold two_digits; now rewrite D5, D6).
  assert (three_digits (a mod 1000) = three_digits (b mod 1000)) as E
      by (unfold three_digits; now rewrite D7, D8, D9).
  apply two_digits_injective in Eh; [|apply Hh; assumption ..].
  apply two_digits_injective in Em; [|apply H60 ..].
  apply two_digits_injective in Es; [|apply H60 ..].
  apply three_digits_injective in E; [|apply H1000 ..].
  apply fields_determine_time; lia.
Qed.

(** X17.  Below one hundred hours two different times never get the same
    time code. *)
Theorem format_time_tells_apart :
  forall millis1 millis2 : Z,
    0 <= millis1 < 360000000 ->
    0 <= millis2 < 360000000 ->
    millis1 <> millis2 ->
    _format_time millis1 <> _format_time millis2.
Proof.
  intros a b Ha Hb Hne E. apply Hne.
  apply format_time_determines; assumption.
Qed.

Lemma format_time_tells_apart_witness :
  _format_time 59999 = "00:00:59,999" /\
  _format_time 59999 <> _format_time 60000.
Proof.
  split; [vm_compute; reflexivity|].
  apply (format_time_tells_apart 59999 60000); lia.
Defined.

End TimeCodesApart.

(** ** Progress of the upload *)

Section UploadProgress.

Lemma truediv_monotone (a b total : Z) :
  0 < total -> a <= b ->
  (inject_Z a / inject_Z total <= inject_Z b / inject_Z total)%Q.
Proof.
  intros Ht Hab. unfold Qdiv. apply Qmult_le_compat_r.
  - rewrite <- Zle_Qle. exact Hab.
  - apply Qinv_le_0_compat. change 0%Q with (inject_Z 0).
    rewrite <- Zle_Qle. lia.
Qed.

Lemma growing_rising (chunks : list Resumable) (low total : Z) :
  0 < total -> 0 <= low <= total ->
  growing low total chunks ->
  rising (inject_Z low / inject_Z total)%Q
         (map (fun r => (inject_Z (bytes_uploaded r)
                         / inject_Z (total_bytes r))%Q) chunks ++ [1%Q]).
Proof.
  intros Ht. revert low. induction chunks as [|r chunks IH]; intros low Hlow Hg.
  - simpl. split; [|exact I]. apply truediv_range; lia.
  - destruct Hg as (Htot & Hb & Hrest). cbn [map app rising]. rewrite Htot.
    split; [apply truediv_monotone; lia|].
    apply IH; [lia | exact Hrest].
Qed.

(** X18.  The upload's progress does not go backwards when the transport
    does not: if the total stays the same positive number and the bytes
    uploaded grow from 0 without passing it, the fractions reported for an
    upload that ends normally are in non-decreasing order, from 0 to 1. *)
Theorem upload_progress_rises :
  forall (env : Env) (source_audio_path target_srt_path : string)
         (resumable : Resumable) (total : Z),
    outcome (upload_phase env source_audio_path) = Done tt ->
    initiate_response env = Returns resumable ->
    0 < total ->
    growing 0 total (transmitted resumable (transmit_responses env)) ->
    rising 0%Q
      (fractions_of "upload"
         (trace (transcribe env source_audio_path target_srt_path))) /\
    ends_at_one
      (fractions_of "upload"
         (trace (transcribe env source_audio_path target_srt_path))).
Proof.
  intros env src tgt resumable total Hup Hi Ht Hg.
  destruct (upload_phase_done _ _ Hup) as (_ & _ & r0 & Hi' & _ & Htr).
  rewrite Hi in Hi'. injection Hi' as <-.
  rewrite transcribe_upload_fractions, Htr, !fractions_of_app, chunks_upload.
  cbn [fractions_of app]. cbn [String.eqb Ascii.eqb Bool.eqb]. split.
  - split; [apply Qle_refl|].
    pose proof (growing_rising _ 0 total Ht ltac:(lia) Hg) as H.
    revert H. generalize (map (fun r => (inject_Z (bytes_uploaded r)
                         / inject_Z (total_bytes r))%Q)
                         (transmitted resumable (transmit_responses env)) ++ [1%Q]).
    intros l H. destruct l as [|f l]; [exact I|].
    destruct H as [H1 H2]. split; [|exact H2].
    apply (Qle_trans _ (inject_Z 0 / inject_Z total)); [|exact H1].
    apply truediv_range; lia.
  - exists (0%Q :: map (fun r => (inject_Z (bytes_uploaded r)
                         / inject_Z (total_bytes r))%Q)
                 (transmitted resumable (transmit_responses env))), 1%Q.
    split; reflexivity.
Qed.

Lemma upload_progress_rises_witness :
  rising 0%Q
    (fractions_of "upload"
       (trace (transcribe Sample.env_ok "talk.wav" "talk.srt"))).
Proof.
  apply (upload_progress_rises Sample.env_ok "talk.wav" "talk.srt"
           {| finished := false; bytes_uploaded := 0; total_bytes := 10 |} 10);
    try reflexivity.
  simpl. repeat split; lia.
Defined.

End UploadProgress.

(** ** Times of the words, times in the file *)

Section WordTimes.

(** X19.  The start and the end of a word are taken in whole milliseconds,
    rounded down: what is left of the microseconds is dropped, never rounded
    up. *)
Theorem word_times_round_down :
  forall wd : WordInfo,
    (0 <= 1000000 * seconds (start_time wd) + microseconds (start_time wd)
          - 1000 * word_start_time wd < 1000) /\
    (0 <= 1000000 * seconds (end_time wd) + microseconds (end_time wd)
          - 1000 * word_end_time wd < 1000).
Proof.
  intros wd. unfold word_start_time, word_end_time. change (10 ^ 3) with 1000.
  split; Z.div_mod_to_equations; lia.
Qed.

(** X20.  The times written come from the [seconds] and [microseconds] of
    [timedelta]s, or are the initial 0.  With these fields in their ranges
    every time code of every line written has exactly twelve characters:
    the hours never need a third digit. *)
Theorem time_codes_written_twelve_wide :
  forall (ws : list WordInfo) (sl : SubtitleLine),
    Forall well_timed ws ->
    In sl (segment ws) ->
    String.length (_format_time (sl_start_time sl)) = 12%nat /\
    String.length (_format_time (sl_end_time sl)) = 12%nat.
Proof.
  intros ws sl Hall Hin.
  pose proof (segment_time_codes ws Hall) as H. rewrite Forall_forall in H.
  exact (H sl Hin).
Qed.

Lemma time_codes_written_twelve_wide_witness :
  String.length (_format_time 2000) = 12%nat /\
  String.length (_format_time 2300) = 12%nat.
Proof.
  apply (time_codes_written_twelve_wide Sample.hello_world_foo
           {| sl_line := ["foo"]; sl_index := 2;
              sl_start_time := 2000; sl_end_time := 2300 |}).
  - unfold Sample.hello_world_foo.
    repeat (apply Forall_cons; [vm_compute; repeat split; discriminate|]).
    apply Forall_nil.
  - right; left; reflexivity.
Defined.

End WordTimes.
